(** * Gathio federation routes: a shallow embedding with its verified properties

    The development follows two source files of the repository:
    - [src/routes.js]: the inbox endpoint [POST /activitypub/inbox] (signature
      header parsing, actor key resolution, comparison string, verification),
      the scheduled deletion job and the [POST /deleteevent] route;
    - the front-end router: [GET /:eventID] with its content negotiation.

    JavaScript values are modelled by [json] with [option] for [undefined];
    exceptions by [result]; what the libraries do (HTTP fetch, [JSON.parse],
    Node's [crypto] and [Buffer]) enters as Section variables. *)

From stdpp Require Import gmap strings list fin_maps pretty.
From Stdlib Require Import Ascii String Lia.
From Stdlib Require QArith Qcanon.

Local Open Scope string_scope.

(** ** Characters and strings *)

Module Js.

(** The double quote and the line feed, written by their codes. *)
Definition dquote : ascii := "034"%char.
Definition newline : ascii := "010"%char.
Definition space : ascii := " "%char.
Definition comma : ascii := ","%char.
Definition equals : ascii := "="%char.

Definition q : string := String dquote "".

(** [s.split(c)] for a one-character separator: never the empty array. *)
Fixpoint split (c : ascii) (s : string) : list string :=
  match s with
  | "" => [""]
  | String a s' =>
      if Ascii.eqb a c then "" :: split c s'
      else match split c s' with
           | [] => [String a ""]
           | piece :: rest => String a piece :: rest
           end
  end.

(** [arr.join(sep)]. *)
Definition join (sep : string) (l : list string) : string := String.concat sep l.

(** The first [replace] of the parser, anchored at the start of the value:
    one leading double quote goes, if there is one. *)
Definition strip_leading_quote (s : string) : string :=
  match s with
  | String a s' => if Ascii.eqb a dquote then s' else s
  | "" => ""
  end.

(** The second [replace], anchored at the end: one trailing double quote
    goes, if there is one. *)
Fixpoint strip_trailing_quote (s : string) : string :=
  match s with
  | "" => ""
  | String a "" => if Ascii.eqb a dquote then "" else s
  | String a s' => String a (strip_trailing_quote s')
  end.

Definition unquote (value : string) : string :=
  strip_trailing_quote (strip_leading_quote value).

(** [toLowerCase] on the ASCII letters. *)
Definition lower_ascii (a : ascii) : ascii :=
  let n := nat_of_ascii a in
  if ((65 <=? n)%nat && (n <=? 90)%nat)%bool then ascii_of_nat (n + 32) else a.

Fixpoint toLowerCase (s : string) : string :=
  match s with
  | "" => ""
  | String a s' => String (lower_ascii a) (toLowerCase s')
  end.

(** A value inside a template literal: [undefined] prints as its name. *)
Definition template (v : option string) : string :=
  match v with
  | Some s => s
  | None => "undefined"
  end.

(** A string is falsy exactly when it is empty. *)
Definition nonempty (s : string) : bool :=
  match s with
  | "" => false
  | _ => true
  end.

End Js.

(** ** Exceptions *)

Inductive result (A : Type) : Type :=
  | Ok (a : A)
  | Throw (err : string).
Arguments Ok {A} a.
Arguments Throw {A} err.

#[global] Instance result_ret : MRet result := fun A a => Ok a.

#[global] Instance result_bind : MBind result := fun A B f x =>
  match x with
  | Ok a => f a
  | Throw err => Throw err
  end.

(** [arr.map(f)] where [f] may throw: the first exception ends the loop. *)
Fixpoint map_throwing {A B : Type} (f : A -> result B) (l : list A) : result (list B) :=
  match l with
  | [] => Ok []
  | x :: l' =>
      y ← f x;
      ys ← map_throwing f l';
      Ok (y :: ys)
  end.

(** ** JSON values *)

#[warnings="-register-all"]
Inductive json : Type :=
  | JNull
  | JBool (b : bool)
  | JNum (n : Qcanon.Qc)
  | JStr (s : string)
  | JArr (items : list json)
  | JObj (members : list (string * json)).

(** [JObj] lists the own properties of an object as [JSON.parse] leaves
    them, one entry for a name. *)

(** A JavaScript value here is a JSON value or [undefined] ([None]). *)
Definition jsval : Type := option json.

Definition truthy (v : jsval) : bool :=
  match v with
  | None => false
  | Some JNull => false
  | Some (JBool b) => b
  | Some (JNum n) => negb (bool_decide (n = Qcanon.Q2Qc (QArith_base.Qmake 0 1)))
  | Some (JStr s) => Js.nonempty s
  | Some (JArr _) => true
  | Some (JObj _) => true
  end.

(** [a || b] *)
Definition js_or (a b : jsval) : jsval := if truthy a then a else b.

Fixpoint assoc (k : string) (members : list (string * json)) : jsval :=
  match members with
  | [] => None
  | (k', v) :: rest => if String.eqb k k' then Some v else assoc k rest
  end.

(** [v.name] for the property names read in this file ([publicKey],
    [publicKeyPem]): own members of an object, nothing on other values,
    a [TypeError] on [null] and [undefined]. *)
Definition member (v : jsval) (name : string) : result jsval :=
  match v with
  | None =>
      Throw ("TypeError: Cannot read properties of undefined (reading '" +:+ name +:+ "')")
  | Some JNull =>
      Throw ("TypeError: Cannot read properties of null (reading '" +:+ name +:+ "')")
  | Some (JObj members) => Ok (assoc name members)
  | Some _ => Ok None
  end.

(** ** The inbound request, as Express hands it to a route *)

Record request : Type := {
  method : string;
  path : string;
  (** The own properties of [req.headers], a plain object: Node stores
      header names in lower case. *)
  req_headers : gmap string string
}.

(** [req.headers] is made by an object literal, so a property it lacks is
    looked up on [Object.prototype]. Of the names found there two are in
    lower case and so within reach of [req.get]: [constructor], the
    function [Object], and [__proto__], the prototype itself. The route
    only ever prints the value it reads under a listed name, so each is
    given as the text a template literal prints for it. *)
Definition inherited (lc : string) : option string :=
  if String.eqb lc "constructor" then Some "function Object() { [native code] }"
  else if String.eqb lc "__proto__" then Some "[object Object]"
  else None.

(** [headers[lc]]: an own property wins over an inherited one, except
    under [__proto__], which is an accessor of the prototype: assigning a
    header value to it stores nothing, and reading it gives the
    prototype. *)
Definition property (headers : gmap string string) (lc : string) : option string :=
  if String.eqb lc "__proto__" then inherited lc
  else match headers !! lc with
       | Some v => Some v
       | None => inherited lc
       end.

(** [this.headers[lc]] as [req.get] reads it: by the lower-cased name, the
    two spellings of the referrer header standing for each other. *)
Definition header_value (req : request) (name : string) : option string :=
  let lc := Js.toLowerCase name in
  if (String.eqb lc "referer" || String.eqb lc "referrer")%bool then
    match property (req_headers req) "referrer" with
    | Some v => if Js.nonempty v then Some v else property (req_headers req) "referer"
    | None => property (req_headers req) "referer"
    end
  else property (req_headers req) lc.

(** [req.get(name)] of Express: a falsy name is a [TypeError]. *)
Definition req_get (req : request) (name : string) : result (option string) :=
  if Js.nonempty name then Ok (header_value req name)
  else Throw "TypeError: name argument is required to req.get".

(** What the route leaves behind: a response, the hand-over to
    [processInbox(req, res)], or an exception nobody catches. *)
Inductive outcome : Type :=
  | Response (status : nat) (body : string)
  | ProcessInbox
  | Uncaught (err : string).

(** ** Parsing the Signature header (routes.js, lines 1439-1449) *)

(** The object built by [reduce]: a property may hold [undefined]. *)
Definition signature_header (signature : string) : gmap string (option string) :=
  foldl
    (fun acc el =>
       let key := match el !! 0 with Some k => k | None => "undefined" end in
       <[key := el !! 1]> acc)
    ∅
    (map (fun pair => map Js.unquote (Js.split Js.equals pair))
         (Js.split Js.comma signature)).

(** [signature_header.name]: an absent property and one holding
    [undefined] read the same. *)
Definition field (h : gmap string (option string)) (name : string) : option string :=
  default None (h !! name).

(** ** The comparison string (lines 1471-1480) *)

Definition comparison_line (req : request) (header : string) : result string :=
  if String.eqb header "(request-target)" then
    Ok "(request-target): post /activitypub/inbox"
  else
    v ← req_get req header;
    Ok (header +:+ ": " +:+ Js.template v).

Definition comparison_string (req : request) (headers : string) : result string :=
  lines ← map_throwing (comparison_line req) (Js.split Js.space headers);
  Ok (Js.join (String Js.newline "") lines).

(** ** The configuration switch (line 33) *)

Definition isFederated (is_federated : jsval) : jsval :=
  js_or is_federated (Some (JBool true)).

Section Inbox.

(** The remote side and the libraries.
    - [fetch url] is the third argument [request] passes to its callback:
      the body of the answer, [undefined] when the fetch failed.
    - [JSON_parse] is [JSON.parse] on a string.
    - [Buffer_from_object] is [Buffer.from] on an array or an object.
    - [base64_decode] is [Buffer.from(s, 'base64')] on a string.
    - [RSA_SHA256_verify data key sig] is [verifier.verify(key, sig)]
      after [verifier.update(data)]. *)
Variable fetch : option string -> option string.
Variable JSON_parse : string -> result json.
Variable Buffer_from_object : json -> result (list Byte.byte).
Variable base64_decode : string -> list Byte.byte.
Variable RSA_SHA256_verify : string -> list Byte.byte -> list Byte.byte -> result bool.

(** [JSON.parse(actor)]: [undefined] is read as the text of its name,
    which is no JSON. *)
Definition parse_actor (actor : option string) : result json :=
  match actor with
  | Some body => JSON_parse body
  | None => Throw "SyntaxError: Unexpected token u in JSON at position 0"
  end.

(** The body of the first [try] (lines 1461-1466). *)
Definition actor_publicKey (actor : option string) : result jsval :=
  doc ← parse_actor actor;
  key ← member (Some doc) "publicKey";
  if truthy key then
    doc' ← parse_actor actor;
    key' ← member (Some doc') "publicKey";
    member key' "publicKeyPem"
  else Ok (Some (JStr "")).

(** [Buffer.from(publicKey, 'ascii')] *)
Definition Buffer_from_ascii (v : jsval) : result (list Byte.byte) :=
  match v with
  | Some (JStr s) => Ok (list_byte_of_string s)
  | Some (JArr items) => Buffer_from_object (JArr items)
  | Some (JObj members) => Buffer_from_object (JObj members)
  | _ => Throw "TypeError [ERR_INVALID_ARG_TYPE]: The first argument must be of type string or an instance of Buffer, ArrayBuffer, or Array or an Array-like Object."
  end.

(** [Buffer.from(signature_header.signature, 'base64')] *)
Definition Buffer_from_base64 (v : option string) : result (list Byte.byte) :=
  match v with
  | Some s => Ok (base64_decode s)
  | None => Throw "TypeError [ERR_INVALID_ARG_TYPE]: The first argument must be of type string or an instance of Buffer, ArrayBuffer, or Array or an Array-like Object. Received undefined"
  end.

(** [signature_header.headers.split]: a [TypeError] without the field. *)
Definition headers_field (h : gmap string (option string)) : result string :=
  match field h "headers" with
  | Some hs => Ok hs
  | None => Throw "TypeError: Cannot read properties of undefined (reading 'split')"
  end.

(** Lines 1471-1487: everything between the two [try] blocks. An
    exception here is caught by nobody. *)
Definition verifier_inputs (req : request) (h : gmap string (option string))
    (publicKey : jsval) : result (string * list Byte.byte * list Byte.byte) :=
  hs ← headers_field h;
  comparison ← comparison_string req hs;
  publicKeyBuf ← Buffer_from_ascii publicKey;
  signatureBuf ← Buffer_from_base64 (field h "signature");
  Ok (comparison, publicKeyBuf, signatureBuf).

(** The callback of [request] (lines 1460-1503). *)
Definition on_actor (req : request) (h : gmap string (option string))
    (actor : option string) : outcome :=
  match actor_publicKey actor with
  | Throw err => Response 500 ("Actor could not be parsed" +:+ err)
  | Ok publicKey =>
      match verifier_inputs req h publicKey with
      | Throw err => Uncaught err
      | Ok (comparison, publicKeyBuf, signatureBuf) =>
          match RSA_SHA256_verify comparison publicKeyBuf signatureBuf with
          | Ok true => ProcessInbox
          | Ok false => Response 401 "Signature could not be verified."
          | Throw err => Response 401 ("Signature could not be verified: " +:+ err)
          end
      end
  end.

(** [router.post('/activitypub/inbox', ...)] (lines 1432-1505);
    [is_federated] is [config.general.is_federated]. *)
Definition inbox (is_federated : jsval) (req : request) : outcome :=
  if negb (truthy (isFederated is_federated)) then Response 404 "Not Found"
  else
    match req_get req "signature" with
    | Throw err => Uncaught err
    | Ok None => Response 401 "No signature provided."
    | Ok (Some signature) =>
        if negb (Js.nonempty signature) then Response 401 "No signature provided."
        else
          let h := signature_header signature in
          on_actor req h (fetch (field h "keyId"))
    end.

(** The header is absent, or present and empty: [!signature]. *)
Definition signature_absent (req : request) : Prop :=
  header_value req "signature" = None ∨ header_value req "signature" = Some "".

(** The header is there, the key is resolved, the verifier is fed, and
    [verify] does not answer [true]: it answers [false] or throws. *)
Definition verification_fails (req : request) : Prop :=
  ∃ signature publicKey comparison publicKeyBuf signatureBuf,
    header_value req "signature" = Some signature ∧ signature ≠ "" ∧
    actor_publicKey (fetch (field (signature_header signature) "keyId")) = Ok publicKey ∧
    verifier_inputs req (signature_header signature) publicKey
      = Ok (comparison, publicKeyBuf, signatureBuf) ∧
    RSA_SHA256_verify comparison publicKeyBuf signatureBuf ≠ Ok true.

(** The fetch of the key URL failed, or its body is no JSON, or it is the
    JSON text [null], which has no properties to read. *)
Definition actor_unresolved (url : option string) : Prop :=
  fetch url = None ∨
  (∃ body err, fetch url = Some body ∧ JSON_parse body = Throw err) ∨
  (∃ body, fetch url = Some body ∧ JSON_parse body = Ok JNull).

End Inbox.

(** A boolean setting of the configuration file, or none. *)
Definition config_boolean (setting : option bool) : jsval := JBool <$> setting.

(** The route of the inbox (line 1432) on a router made by
    [express.Router()] without options (line 42): the method is POST, and
    the path is matched without regard to case and with or without a
    slash at its end. *)
Definition routed_to_inbox (req : request) : bool :=
  (String.eqb (method req) "POST" &&
   (String.eqb (Js.toLowerCase (path req)) "/activitypub/inbox"
    || String.eqb (Js.toLowerCase (path req)) "/activitypub/inbox/"))%bool.

(** The comparison string in the words of the specification. *)

(** The header the request itself carries under a name; the names of
    headers do not tell upper case from lower case. *)
Definition request_header (req : request) (name : string) : option string :=
  req_headers req !! Js.toLowerCase name.

(** The lower-cased method, a space and the path of the request. *)
Definition request_target (req : request) : string :=
  Js.toLowerCase (method req) +:+ " " +:+ path req.

(** One line for a listed name: the request line, given as [target], for
    the pseudo-header, and the header of that name for any other. *)
Definition canonical_line (target : string) (req : request) (name : string) : string :=
  if String.eqb name "(request-target)" then "(request-target): " +:+ target
  else name +:+ ": " +:+ Js.template (request_header req name).

Definition canonical_string (target : string) (req : request) (headers : string) : string :=
  Js.join (String Js.newline "")
    (map (canonical_line target req) (Js.split Js.space headers)).

(** A listed name under which [req.get] reads the request's own header
    and nothing else: it is not empty, and in lower case it is neither
    spelling of the referrer header nor a name objects inherit. *)
Definition ordinary (name : string) : bool :=
  let lc := Js.toLowerCase name in
  (Js.nonempty name
   && negb (String.eqb lc "referer") && negb (String.eqb lc "referrer")
   && negb (String.eqb lc "constructor") && negb (String.eqb lc "__proto__"))%bool.

(** ** Events in the store *)

(** The fields of an [Event] document the federation code touches. *)
Record event : Type := {
  _id : string;
  id : string;
  editToken : string;
  image : option string;
  activityPubActor : option string;
  activityPubEvent : option string;
  followers : list json
}.

(** Truthiness of an optional string field. *)
Definition present (v : option string) : bool :=
  match v with
  | Some s => Js.nonempty s
  | None => false
  end.

(** [v || fallback] on an optional string field. *)
Definition or_string (v : option string) (fallback : string) : string :=
  match v with
  | Some s => if Js.nonempty s then s else fallback
  | None => fallback
  end.

(** ** Deleting events: callbacks as a command tree *)

(** One recipient's entry in the [statuses] a broadcast reports. *)
Inductive delivery : Type :=
  | Delivered
  | Failed (err : string).

(** The effects of the two deletion paths. [BroadcastDelete] is
    [broadcastDeleteMessage(apObject, followers, eventID, callback)];
    [EventRemove] and [EventDeleteOne] are the store calls with what runs
    on their completion; [Raise] is an exception leaving the function. *)
Inductive cmd : Type :=
  | Done
  | Raise (err : string)
  | Log (process status message : string) (next : cmd)
  | Unlink (file : string) (next : cmd)
  | BroadcastDelete (apObject : json) (followers : list json) (eventID : string)
      (callback : list delivery -> cmd)
  | EventRemove (_id : string) (next : result unit -> cmd)
  | EventDeleteOne (id : string) (next : result unit -> cmd)
  | Send (body : string) (next : cmd)
  | Redirect (status : nat) (location : string) (next : cmd)
  | SendEmails (next : cmd).

(** What an observer sees, in order. *)
Inductive step : Type :=
  | SRaise (err : string)
  | SLog (process status message : string)
  | SUnlink (file : string)
  | SBroadcastDelete (apObject : json) (followers : list json) (eventID : string)
  | SCallback (statuses : list delivery)
  | SEventRemove (_id : string)
  | SEventDeleteOne (id : string)
  | SSend (body : string)
  | SRedirect (status : nat) (location : string)
  | SEmails.

(** The runs of a command, and every prefix of a run: a broadcast may never
    call back, a store call may never complete. The statuses a broadcast
    reports and the result of a store call are the environment's choice.
    [broadcastDeleteMessage] itself lives in activitypub.js; by section 4.6
    of the specification it reports the per-recipient outcomes once every
    attempt has finished, which is when [callback] runs. *)
Inductive trace : cmd -> list step -> Prop :=
  | trace_nil c : trace c []
  | trace_raise err : trace (Raise err) [SRaise err]
  | trace_log p s m next t :
      trace next t -> trace (Log p s m next) (SLog p s m :: t)
  | trace_unlink file next t :
      trace next t -> trace (Unlink file next) (SUnlink file :: t)
  | trace_broadcast_pending o fs i callback :
      trace (BroadcastDelete o fs i callback) [SBroadcastDelete o fs i]
  | trace_broadcast o fs i callback statuses t :
      trace (callback statuses) t ->
      trace (BroadcastDelete o fs i callback)
            (SBroadcastDelete o fs i :: SCallback statuses :: t)
  | trace_remove i next r t :
      trace (next r) t -> trace (EventRemove i next) (SEventRemove i :: t)
  | trace_deleteOne i next r t :
      trace (next r) t -> trace (EventDeleteOne i next) (SEventDeleteOne i :: t)
  | trace_send body next t :
      trace next t -> trace (Send body next) (SSend body :: t)
  | trace_redirect status location next t :
      trace next t -> trace (Redirect status location next) (SRedirect status location :: t)
  | trace_emails next t :
      trace next t -> trace (SendEmails next) (SEmails :: t).

(** The store removal steps. *)
Definition is_removal (s : step) : bool :=
  match s with
  | SEventRemove _ | SEventDeleteOne _ => true
  | _ => false
  end.

(** Before position [n] of the run, the Delete of [apObject] went out to
    these followers and its completion callback fired. *)
Definition completed_before (t : list step) (n : nat)
    (apObject : json) (followers : list json) (eventID : string) : Prop :=
  ∃ i statuses,
    i + 1 < n ∧
    t !! i = Some (SBroadcastDelete apObject followers eventID) ∧
    t !! (i + 1) = Some (SCallback statuses).

Section Deletion.

Variable JSON_parse : string -> result json.

(** [JSON.parse] on a stored field; [undefined] is no JSON. *)
Definition parse_stored (v : option string) : result json :=
  match v with
  | Some s => JSON_parse s
  | None => Throw "SyntaxError: Unexpected token u in JSON at position 0"
  end.

(** [deleteEventFromDB] of the scheduled job (lines 94-113). *)
Definition deleteEventFromDB (oid : string) : cmd :=
  EventRemove oid (fun response =>
    match response with
    | Ok _ =>
        Log "deleteOldEvents" "success" ("Old event " +:+ oid +:+ " deleted") Done
    | Throw err =>
        Log "deleteOldEvents" "error"
            ("Attempt to delete old event " +:+ oid +:+ " failed with error: " +:+ err)
            Done
    end).

(** The body of [oldEvents.forEach] in the scheduled job (lines 93-169).
    The callback of [fs.unlink] only writes to the log and is left out;
    so is the random [guidUpdateObject], which nothing reads. *)
Definition deleteOldEvent (e : event) : cmd :=
  let federation :=
    if (present (activityPubActor e) && present (activityPubEvent e))%bool then
      match parse_stored (activityPubActor e) with
      | Throw err => Raise err
      | Ok jsonUpdateObject =>
          match parse_stored (activityPubEvent e) with
          | Throw err => Raise err
          | Ok jsonEventObject =>
              BroadcastDelete jsonUpdateObject (followers e) (id e) (fun statuses =>
                BroadcastDelete jsonEventObject (followers e) (id e) (fun statuses' =>
                  deleteEventFromDB (_id e)))
          end
      end
    else deleteEventFromDB (_id e) in
  if present (image e) then
    Unlink ("/public/events/" +:+ Js.template (image e)) federation
  else federation.

(** The failure handler shared by the promise chain of the route. *)
Definition deleteEventFailed (eventID prefix err : string) : cmd :=
  Send (prefix +:+ err)
    (Log "deleteEvent" "error"
       ("Attempt to delete event " +:+ eventID +:+ " failed with error: " +:+ err) Done).

(** [router.post('/deleteevent/:eventID/:editToken')] (lines 265-440) from
    the answer of [Event.findOne] on. [sendEmails] is the module's flag;
    the mails themselves are one step. *)
Definition deleteEvent (sendEmails : bool) (found : result (option event))
    (eventID submittedEditToken : string) : cmd :=
  match found with
  | Throw err => deleteEventFailed eventID "Sorry! Something went wrong: " err
  | Ok None =>
      deleteEventFailed eventID "Sorry! Something went wrong: "
        "TypeError: Cannot read properties of null (reading 'editToken')"
  | Ok (Some e) =>
      if String.eqb (editToken e) submittedEditToken then
        match parse_stored (activityPubActor e) with
        | Throw err => deleteEventFailed eventID "Sorry! Something went wrong: " err
        | Ok jsonUpdateObject =>
            BroadcastDelete jsonUpdateObject (followers e) eventID (fun statuses =>
              EventDeleteOne eventID (fun raw =>
                match raw with
                | Throw err =>
                    Send err
                      (Log "deleteEvent" "error"
                         ("Attempt to delete event " +:+ eventID +:+ " failed with error: " +:+ err)
                         (deleteEventFailed eventID
                            "Sorry! Something went wrong (error deleting): " err))
                | Ok _ =>
                    let answer :=
                      Redirect 302 "/" (if sendEmails then SendEmails Done else Done) in
                    if present (image e) then
                      Unlink ("/public/events/" +:+ Js.template (image e)) answer
                    else answer
                end))
        end
      else
        Send "Sorry! Something went wrong"
          (Log "deleteEvent" "error"
             ("Attempt to delete event " +:+ eventID +:+ " failed with error: token does not match")
             Done)
  end.

End Deletion.

(** ** The event page and content negotiation *)

(** The answer of [GET /:eventID]: a rendered view with its status, or a
    JSON body; both with the response headers the handler has set. *)
Inductive page_answer (L : Type) : Type :=
  | Rendered (status : nat) (view : string) (locals : option L)
      (headers : list (string * string))
  | Sent (headers : list (string * string)) (body : json).
Arguments Rendered {L} status view locals headers.
Arguments Sent {L} headers body.

(** Position of the first element of [l] that satisfies [p]. *)
Fixpoint rank {A : Type} (p : A -> bool) (l : list A) : option nat :=
  match l with
  | [] => None
  | x :: l' => if p x then Some 0 else S <$> rank p l'
  end.

(** Modelled from the spec: the constant [activityPubContentType] of
    lib/activitypub.js is not among the sources. Sections 4.3 and 6 name it
    the ActivityPub JSON-LD media type: application/ld+json with the
    ActivityStreams profile. *)
Definition activityPubContentType : string :=
  "application/ld+json; profile=" +:+ Js.q +:+ "https://www.w3.org/ns/activitystreams" +:+ Js.q.

Section EventPage.

(** The media types of the request's Accept header, most preferred
    first. *)
Variable media_types : request -> list string.

Variable JSON_parse : string -> result json.

(** Lines 142-312 of the handler: the dates, the attendee lists and the
    metadata handed to the view; any of it may throw. *)
Variable Locals : Type.
Variable event_locals : event -> request -> result Locals.

(** The federation content types: the JSON-LD type and, by section 8,
    application/activity+json. *)
Definition is_federation_type (t : string) : bool :=
  (String.eqb t activityPubContentType || String.eqb t "application/activity+json")%bool.

Definition is_html_type (t : string) : bool := String.eqb t "text/html".

(** Modelled from the spec: [acceptsActivityPub] of lib/activitypub.js is
    not among the sources. Section 4.3: true iff the preference list
    contains a federation-specific content type at a preference rank at
    or above the HTML type, or if no HTML-acceptable type is present at
    all. *)
Definition wantsFederatedRepresentation (preferences : list string) : bool :=
  match rank is_html_type preferences with
  | None => true
  | Some html =>
      match rank is_federation_type preferences with
      | Some federation => (federation <=? html)%nat
      | None => false
      end
  end.

(** Modelled from the spec: the negotiation of section 4.3 on the media
    types of the request. *)
Definition acceptsActivityPub (req : request) : bool :=
  wantsFederatedRepresentation (media_types req).

Definition notFound (headers : list (string * string)) : page_answer Locals :=
  Rendered 404 "404" None headers.

(** [router.get('/:eventID')] from the answer of [Event.findOne] on.
    The header is set before [JSON.parse] runs, so it stays on the 404
    page of the [catch]. *)
Definition getEvent (found : result (option event)) (req : request) : page_answer Locals :=
  match found with
  | Throw err => notFound []
  | Ok None => notFound []
  | Ok (Some e) =>
      match event_locals e req with
      | Throw err => notFound []
      | Ok locals =>
          if acceptsActivityPub req then
            let headers := [("Content-Type", activityPubContentType)] in
            match JSON_parse (or_string (activityPubActor e) "{}") with
            | Throw err => notFound headers
            | Ok actor => Sent headers actor
            end
          else
            Rendered 200 "event" (Some locals) [("X-Robots-Tag", "noindex")]
      end
  end.

End EventPage.

(** ** Well-formed Signature headers *)

(** Does the character occur in the string? *)
Fixpoint occurs (c : ascii) (s : string) : bool :=
  match s with
  | "" => false
  | String a s' => (Ascii.eqb a c || occurs c s')%bool
  end.

(** One [key="value"] pair and a header made of such pairs, as section 6
    of the specification writes it. *)
Definition quoted_pair (kv : string * string) : string :=
  kv.1 +:+ String Js.equals "" +:+ Js.q +:+ kv.2 +:+ Js.q.

Definition signature_of (pairs : list (string * string)) : string :=
  Js.join (String Js.comma "") (map quoted_pair pairs).



(** ** A sample remote server and request, for evaluation *)

Module Sample.

Definition keyId : string := "https://remote.example/actor".

(** The actor document [{"publicKey":{"publicKeyPem":"PEM"}}]. *)
Definition actor_body : string :=
  "{" +:+ Js.q +:+ "publicKey" +:+ Js.q +:+ ":{" +:+ Js.q +:+ "publicKeyPem" +:+ Js.q
      +:+ ":" +:+ Js.q +:+ "PEM" +:+ Js.q +:+ "}}".

Definition actor_doc : json :=
  JObj [("publicKey", JObj [("publicKeyPem", JStr "PEM")])].

Definition fetch (url : option string) : option string :=
  match url with
  | Some u => if String.eqb u keyId then Some actor_body else None
  | None => None
  end.

(** [JSON.parse] on the two texts the samples use; other texts are not
    needed and count as malformed. *)
Definition JSON_parse (text : string) : result json :=
  if String.eqb text actor_body then Ok actor_doc
  else if String.eqb text "{}" then Ok (JObj [])
  else Throw "SyntaxError: Unexpected token in JSON".

Definition Buffer_from_object (o : json) : result (list Byte.byte) :=
  Throw "TypeError [ERR_INVALID_ARG_TYPE]".

(** The base64 text [c2ln] stands for the three bytes of [sig]. *)
Definition base64_decode (s : string) : list Byte.byte :=
  if String.eqb s "c2ln" then list_byte_of_string "sig" else [].

Definition signed_headers : string := "(request-target) host date".

Definition signed_text : string :=
  "(request-target): post /activitypub/inbox" +:+ String Js.newline ""
    +:+ "host: gath.io" +:+ String Js.newline "" +:+ "date: Tue, 03 Nov 2026 10:00:00 GMT".

(** A stand-in for RSA: the one key accepts the one signature over the
    one text; a key that is no PEM text makes [verify] throw. *)
Definition RSA_SHA256_verify (data : string) (key signature : list Byte.byte) : result bool :=
  if String.eqb (string_of_list_byte key) "PEM" then
    Ok (String.eqb data signed_text && String.eqb (string_of_list_byte signature) "sig")%bool
  else Throw "Error: error:1E08010C:DECODER routines::unsupported".

Definition inbox : jsval -> request -> outcome :=
  inbox fetch JSON_parse Buffer_from_object base64_decode RSA_SHA256_verify.

Definition post (headers : gmap string string) : request :=
  {| method := "POST"; path := "/activitypub/inbox"; req_headers := headers |}.

Definition signed (signature : string) : request :=
  post {[ "host" := "gath.io";
          "date" := "Tue, 03 Nov 2026 10:00:00 GMT";
          "signature" := signature ]}.

(** A POST the route takes under another spelling of its path. *)
Definition respelled_post : request :=
  {| method := "POST"; path := "/ActivityPub/Inbox/";
     req_headers := {[ "host" := "gath.io" ]} |}.

(** A POST that carries the referrer header under both of its spellings. *)
Definition twice_referred_post : request :=
  post {[ "referer" := "https://a.example/"; "referrer" := "https://b.example/" ]}.

(** A complete header with a good signature, one with a bad signature. *)
Definition good_signature : string :=
  signature_of [("keyId", keyId); ("headers", signed_headers); ("signature", "c2ln")].

Definition bad_signature : string :=
  signature_of [("keyId", keyId); ("headers", signed_headers); ("signature", "AAAA")].


(** A header without the [headers] field. *)
Definition no_headers_signature : string :=
  signature_of [("keyId", keyId); ("signature", "c2ln")].

Definition stored_event : event :=
  {| _id := "6543210fedcba9876543210f";
     id := "Ab3dEfGh1jKlMn0pQrStU";
     editToken := "s3cr3t";
     image := Some "Ab3dEfGh1jKlMn0pQrStU.jpg";
     activityPubActor := Some actor_body;
     activityPubEvent := Some "{}";
     followers := [JStr "https://remote.example/follower"] |}.

Definition plain_event : event :=
  {| _id := "6543210fedcba98765432110";
     id := "Zz3dEfGh1jKlMn0pQrStU";
     editToken := "t0k3n";
     image := None;
     activityPubActor := None;
     activityPubEvent := None;
     followers := [] |}.

Definition get (accept : list string) : request :=
  {| method := "GET"; path := "/Ab3dEfGh1jKlMn0pQrStU";
     req_headers := {[ "accept" := Js.join "," accept ]} |}.

(** The Accept header of the samples lists plain media types. *)
Definition media_types (req : request) : list string :=
  match req_headers req !! "accept" with
  | Some accept => Js.split Js.comma accept
  | None => []
  end.

Definition getEvent : result (option event) -> request -> page_answer unit :=
  getEvent media_types JSON_parse unit (fun _ _ => Ok tt).

End Sample.

(** ** The comparison string without its exception *)

(** The line [comparison_string] writes for a name that is not empty. *)
Definition written_line (req : request) (name : string) : string :=
  if String.eqb name "(request-target)" then "(request-target): post /activitypub/inbox"
  else name +:+ ": " +:+ Js.template (header_value req name).




(** ** More samples *)

Module Fixture.

(** A remote server that answers every key URL with the empty object. *)
Definition keyless_fetch (url : option string) : option string := Some "{}".

Definition keyless_inbox : jsval -> request -> outcome :=
  inbox keyless_fetch Sample.JSON_parse Sample.Buffer_from_object
    Sample.base64_decode Sample.RSA_SHA256_verify.

(** An event whose stored actor snapshot is no JSON. *)
Definition broken_event : event :=
  {| _id := "6543210fedcba98765432111";
     id := "Br0kEnGh1jKlMn0pQrStU";
     editToken := "t0k3n";
     image := None;
     activityPubActor := Some "<html>";
     activityPubEvent := Some "{}";
     followers := [] |}.

End Fixture.

(** ** Broadcast steps *)

Definition is_broadcast (s : step) : bool :=
  match s with
  | SBroadcastDelete _ _ _ => true
  | _ => false
  end.

(** ** The description of the page metadata *)

(** Lines 296-303 of the event page and 461-468 of the group page, after
    [marked.parse] and before [trim]: split at the spaces, keep what
    [splice(0, 40)] returns, join with spaces. *)
Definition first_words (n : nat) (plain : string) : string :=
  Js.join " " (take n (Js.split Js.space plain)).

Definition description_preview (plain : string) : string := first_words 40 plain.

(** ** Attendees: the list on the event page and the free spots *)

Module Rsvp.

(** An entry of [event.attendees]; a field that is [undefined] or [null]
    is [None]. A party size is a double in the code. The entries here are
    those whose size is a whole number, and the sums below are taken in
    the integers: they are the sums of the code as long as every partial
    sum stays between -2^53 and 2^53, where the addition of doubles is
    exact (see [exactly_summed]). *)
Record attendee : Type := {
  id : option string;
  name : option string;
  status : option string;
  email : option string;
  removalPassword : option string;
  number : option Z;
  visibility : option string
}.

(** [status === 'attending'] *)
Definition attending (a : attendee) : bool :=
  match status a with
  | Some s => String.eqb s "attending"
  | None => false
  end.

(** [number || 1] *)
Definition party (a : attendee) : Z :=
  match number a with
  | Some n => if (n =? 0)%Z then 1%Z else n
  | None => 1%Z
  end.

(** The [id] of an entry after the [map] of the event page: its own id
    if it has one, else its [_id], an object that strict equality finds
    equal to itself only and that is named by the place of the entry in
    the stored array. *)
Inductive key : Type :=
  | KString (s : string)
  | KObject (place : nat).

#[global] Instance key_eq_dec : EqDecision key.
Proof. solve_decision. Defined.

Definition key_at (place : nat) (el : attendee) : key :=
  match id el with
  | Some s => if Js.nonempty s then KString s else KObject place
  | None => KObject place
  end.

(** An entry as the [map] of the event page returns it. *)
Record listed : Type := {
  source : attendee;
  listed_id : key;
  listed_name : option string;
  listed_visibility : string
}.

(** The callback of [map] (event page, lines 242-254). *)
Definition adjust (placed : nat * attendee) : listed :=
  let el := placed.2 in
  {| source := el;
     listed_id := key_at placed.1 el;
     listed_name :=
       match number el with
       | Some n =>
           if (1 <? n)%Z
           then Some (Js.template (name el) +:+ " (" +:+ pretty n +:+ " people)")
           else name el
       | None => name el
       end;
     listed_visibility := or_string (visibility el) "public" |}.

(** [keys.indexOf(k)] *)
Fixpoint indexOf (k : key) (keys : list key) : option nat :=
  match keys with
  | [] => None
  | k' :: rest => if decide (k' = k) then Some 0%nat else S <$> indexOf k rest
  end.

(** [arr.filter((obj, pos) => ...)], counting positions from [pos]. *)
Fixpoint filter_from {A : Type} (p : A -> nat -> bool) (pos : nat) (arr : list A) : list A :=
  match arr with
  | [] => []
  | obj :: rest =>
      if p obj pos then obj :: filter_from p (S pos) rest else filter_from p (S pos) rest
  end.

(** The callback of [filter] (lines 255-260). *)
Definition first_attending (arr : list listed) (obj : listed) (pos : nat) : bool :=
  (attending (source obj)
   && bool_decide (indexOf (listed_id obj) (map listed_id arr) = Some pos))%bool.

Section Page.

(** [Array.prototype.sort] with the comparator on names: whatever the
    order it settles on, the array keeps its elements. *)
Variable sort : list (nat * attendee) -> list (nat * attendee).

(** [eventAttendees] (lines 240-260); the stored array may be missing. *)
Definition eventAttendees (attendees : option (list attendee)) : option (list listed) :=
  match attendees with
  | None => None
  | Some stored =>
      let arr := map adjust (sort (imap (fun place el => (place, el)) stored)) in
      Some (filter_from (first_attending arr) 0 arr)
  end.

End Page.

(** [numberOfAttendees] (lines 263-269): the sum runs over the list in
    its sorted order, one addition for an entry. *)
Definition numberOfAttendees (eventAttendees : option (list listed)) : Z :=
  match eventAttendees with
  | Some l =>
      foldl (fun acc attendee =>
               if attending (source attendee) then (acc + party (source attendee))%Z else acc)
            0%Z l
  | None => 0%Z
  end.

(** [visibleAttendees] and [hiddenAttendees] (lines 270-275) *)
Definition visibleAttendees (eventAttendees : option (list listed)) : option (list listed) :=
  List.filter (fun attendee => String.eqb (listed_visibility attendee) "public")
    <$> eventAttendees.

Definition hiddenAttendees (eventAttendees : option (list listed)) : option (list listed) :=
  List.filter (fun attendee => String.eqb (listed_visibility attendee) "private")
    <$> eventAttendees.

(** [spotsRemaining] and [noMoreSpots] (lines 262, 288-293): both stay
    [undefined] unless [maxAttendees] is truthy. *)
Definition spotsRemaining (maxAttendees : option Z) (numberOfAttendees : Z) : option Z :=
  match maxAttendees with
  | Some m => if (m =? 0)%Z then None else Some (m - numberOfAttendees)%Z
  | None => None
  end.

Definition noMoreSpots (maxAttendees : option Z) (numberOfAttendees : Z) : option bool :=
  match spotsRemaining maxAttendees numberOfAttendees with
  | Some spots => if (spots <=? 0)%Z then Some true else None
  | None => None
  end.

(** The sum both RSVP routes take over [event.attendees]
    (routes.js, lines 628-632 and 669-673). *)
Definition headcount (attendees : list attendee) : Z :=
  foldl (fun acc a => (acc + (if attending a then party a else 0))%Z) 0%Z attendees.

(** [freeSpots]: only when [maxAttendees] is neither [null] nor
    [undefined]. *)
Definition freeSpots (maxAttendees : option Z) (attendees : list attendee) : option Z :=
  match maxAttendees with
  | Some m => Some (m - headcount attendees)%Z
  | None => None
  end.

(** The fields of the form the attend route reads. *)
Record attend_body : Type := {
  body_removalPassword : option string;
  attendeeName : option string;
  attendeeEmail : option string;
  attendeeNumber : option Z;
  attendeeVisible : bool
}.

(** The event as the RSVP routes read it. *)
Record rsvp_event : Type := {
  maxAttendees : option Z;
  attendees : list attendee
}.

(** What [POST /attendevent/:eventID] does up to its store update. After
    a failed lookup the handler has answered 500 and goes on with the
    response object in the place of the event, where [attendees] is
    missing. *)
Inductive attend_answer : Type :=
  | Status (code : nat)
  | StatusThenUncaught (code : nat) (err : string)
  | FindOneAndUpdate (removalPassword : string) (name email : option string)
      (number : option Z) (visibility : string).

Definition has_password (password : string) (a : attendee) : bool :=
  match removalPassword a with
  | Some p => String.eqb p password
  | None => false
  end.

(** [router.post('/attendevent/:eventID')] (routes.js, lines 639-693). *)
Definition attendEvent (found : result (option rsvp_event)) (body : attend_body)
    : attend_answer :=
  if negb (present (body_removalPassword body)) then Status 500
  else
    match found with
    | Throw err =>
        StatusThenUncaught 500
          "TypeError: Cannot read properties of undefined (reading 'find')"
    | Ok None => Status 404
    | Ok (Some event) =>
        let password := Js.template (body_removalPassword body) in
        if negb (existsb (has_password password) (attendees event)) then Status 404
        else
          let update :=
            FindOneAndUpdate password (attendeeName body) (attendeeEmail body)
              (attendeeNumber body) (if attendeeVisible body then "public" else "private") in
          match freeSpots (maxAttendees event) (attendees event), attendeeNumber body with
          | Some free, Some n => if (free <? n)%Z then Status 403 else update
          | _, _ => update
          end
    end.


End Rsvp.

(** ** Sums and stored ids, to speak about the attendee lists *)

Fixpoint total (l : list Z) : Z :=
  match l with
  | [] => 0%Z
  | n :: rest => (n + total rest)%Z
  end.

(** What an entry adds to the sum of the RSVP routes. *)
Definition contribution (a : Rsvp.attendee) : Z :=
  if Rsvp.attending a then Rsvp.party a else 0%Z.

(** The additions of a [reduce] over the numbers [l], begun at zero, are
    all exact in doubles: every partial sum is a whole number between
    -2^53 and 2^53. *)
Definition exactly_summed (l : list Z) : Prop :=
  ∀ k : nat, (Z.abs (total (take k l)) <= 2 ^ 53)%Z.

(** The sum of the sizes of the stored parties, each taken without its
    sign: a bound on every partial sum, in whatever order. *)
Definition magnitude (stored : list Rsvp.attendee) : Z :=
  total (map (fun a => Z.abs (contribution a)) stored).

(** The ids the stored entries carry: the non-empty texts. *)
Definition string_ids (stored : list Rsvp.attendee) : list string :=
  omap (fun a => match Rsvp.id a with
                 | Some s => if Js.nonempty s then Some s else None
                 | None => None
                 end) stored.

Module RsvpFixture.

Definition guest (id' : option string) (name' status' password : string) (n : Z)
    : Rsvp.attendee :=
  {| Rsvp.id := id'; Rsvp.name := Some name'; Rsvp.status := Some status';
     Rsvp.email := None; Rsvp.removalPassword := Some password;
     Rsvp.number := Some n; Rsvp.visibility := None |}.

Definition stored : list Rsvp.attendee :=
  [guest (Some "a1") "Zoe" "attending" "apple-pie" 2;
   guest None "Adam" "provisioned" "berry-jam" 1;
   guest (Some "a3") "Mia" "attending" "cocoa-nib" 0].

(** The sample order of [sort]: the array turned round. *)
Definition sort (l : list (nat * Rsvp.attendee)) : list (nat * Rsvp.attendee) := reverse l.

Definition full_event : Rsvp.rsvp_event :=
  {| Rsvp.maxAttendees := Some 3%Z; Rsvp.attendees := stored |}.



Definition form (password : string) (n : Z) : Rsvp.attend_body :=
  {| Rsvp.body_removalPassword := Some password;
     Rsvp.attendeeName := Some "Adam"; Rsvp.attendeeEmail := None;
     Rsvp.attendeeNumber := Some n; Rsvp.attendeeVisible := true |}.

End RsvpFixture.

(** ** The one-click unattend link (routes.js, lines 837-850) *)

(** [s.startsWith(sub)] and [s.includes(sub)] *)
Fixpoint starts_with (sub s : string) : bool :=
  match sub, s with
  | "", _ => true
  | String _ _, "" => false
  | String a sub', String b s' => (Ascii.eqb a b && starts_with sub' s')%bool
  end.

Fixpoint includes (s sub : string) : bool :=
  (starts_with sub s
   || match s with
      | "" => false
      | String _ s' => includes s' sub
      end)%bool.

(** What the handler does first: answer, or ask the store to pull the
    attendee with this [_id] out of the event. *)
Inductive unattend_answer : Type :=
  | Acknowledge (status : nat)
  | PullAttendee (eventID attendeeID : string).

(** [router.get('/oneclickunattendevent/:eventID/:attendeeID')] up to its
    store update. *)
Definition oneClickUnattend (req : request) (eventID attendeeID : string) : unattend_answer :=
  match req_headers req !! "user-agent" with
  | Some agent =>
      if (Js.nonempty agent
          && (includes (Js.toLowerCase agent) "mastodon"
              || includes (Js.toLowerCase agent) "pleroma"))%bool
      then Acknowledge 200
      else PullAttendee eventID attendeeID
  | None => PullAttendee eventID attendeeID
  end.

(** ** Provisioning an attendee (routes.js, lines 580-637) *)

(** [newAttendee] as the route writes it: a status and a removal
    password (the creation time is left out). *)
Definition newAttendee (removalPassword : string) : Rsvp.attendee :=
  {| Rsvp.id := None; Rsvp.name := None; Rsvp.status := Some "provisioned";
     Rsvp.email := None; Rsvp.removalPassword := Some removalPassword;
     Rsvp.number := None; Rsvp.visibility := None |}.

(** The entry as it sits in the array after the push: the store's schema
    may have filled in other fields, the two of the route stay. *)
Definition pushed_as (removalPassword : string) (entry : Rsvp.attendee) : Prop :=
  Rsvp.status entry = Rsvp.status (newAttendee removalPassword) ∧
  Rsvp.removalPassword entry = Rsvp.removalPassword (newAttendee removalPassword).

(** The event after [event.attendees.push(newAttendee)] and the
    [freeSpots] the route returns with the password. *)
Definition provisioned (entry : Rsvp.attendee) (event : Rsvp.rsvp_event) : Rsvp.rsvp_event :=
  {| Rsvp.maxAttendees := Rsvp.maxAttendees event;
     Rsvp.attendees := Rsvp.attendees event ++ [entry] |}.

Definition provisionFreeSpots (entry : Rsvp.attendee) (event : Rsvp.rsvp_event) : option Z :=
  Rsvp.freeSpots (Rsvp.maxAttendees event) (Rsvp.attendees (provisioned entry event)).

(** ** Editing mode of the event and group pages *)

(** A value of [req.query]: a text, or an array or object the query
    parser built (truthy, and equal to no text). *)
Inductive query_value : Type :=
  | QString (s : string)
  | QNested.

Definition query_truthy (v : option query_value) : bool :=
  match v with
  | Some (QString s) => Js.nonempty s
  | Some QNested => true
  | None => false
  end.

(** [req.query.e === token] *)
Definition query_is (v : option query_value) (token : string) : bool :=
  match v with
  | Some (QString s) => String.eqb s token
  | _ => false
  end.

(** [Object.keys(req.query).length !== 0] *)
Definition has_keys (query : gmap string query_value) : bool :=
  negb (bool_decide (query = ∅)).

(** [editingEnabled] of the event page (lines 227-239). *)
Definition event_editingEnabled (query : gmap string query_value) (eventEditToken : string)
    : bool :=
  if has_keys query then
    if negb (query_truthy (query !! "e")) then false
    else if query_is (query !! "e") eventEditToken then true else false
  else false.

(** [editingEnabled] of the group page (lines 450-457). *)
Definition group_editingEnabled (query : gmap string query_value)
    (eventGroupEditToken : string) : bool :=
  if has_keys query then
    if negb (query_truthy (query !! "e")) then false
    else query_is (query !! "e") eventGroupEditToken
  else false.

(** [jsonData.editToken] of both pages: the token, or [null]. *)
Definition jsonData_editToken (editingEnabled : bool) (editToken : string) : option string :=
  if editingEnabled then Some editToken else None.

(** ** Unattending (routes.js, lines 758-768) *)

Inductive unattend_by_password : Type :=
  | Refuse (status : nat)
  | PullPassword (removalPassword : string).

(** [router.post('/unattendevent/:eventID')] up to its store update. *)
Definition unattendEvent (removalPassword : option string) : unattend_by_password :=
  if negb (present removalPassword) then Refuse 500
  else PullPassword (Js.template removalPassword).

(** The [$pull] of the store: every entry with the removal password
    goes, the others stay as they are. *)
Definition pull_password (removalPassword : string) (attendees : list Rsvp.attendee)
    : list Rsvp.attendee :=
  List.filter (fun a => negb (Rsvp.has_password removalPassword a)) attendees.

(** * Properties *)

(** ** Splitting and unquoting *)

Section SplitFacts.

Import Js.

Lemma split_absent c s : occurs c s = false -> split c s = [s].
Proof.
  induction s as [|a s IH]; simpl; intros Hfree; [done|].
  apply orb_false_iff in Hfree as [-> Hs].
  by rewrite (IH Hs).
Qed.

Lemma split_append c s t :
  occurs c s = false -> split c (s +:+ String c t) = s :: split c t.
Proof.
  induction s as [|a s IH]; simpl; intros Hfree.
  - by rewrite Ascii.eqb_refl.
  - apply orb_false_iff in Hfree as [-> Hs].
    by rewrite (IH Hs).
Qed.


(** Splitting undoes joining, as long as no piece holds the separator. *)
Lemma split_join c piece pieces :
  Forall (fun s => occurs c s = false) (piece :: pieces) ->
  split c (join (String c "") (piece :: pieces)) = piece :: pieces.
Proof.
  revert piece.
  induction pieces as [|p ps IH]; intros piece Hfree;
    apply Forall_cons in Hfree as [Hpiece Hrest].
  - by apply split_absent.
  - unfold join in *.
    change (String.concat (String c "") (piece :: p :: ps))
      with (piece +:+ String c (String.concat (String c "") (p :: ps))).
    rewrite split_append by done.
    by rewrite IH.
Qed.





End SplitFacts.

(** ** The Signature header *)

Section SignatureHeader.

Import Js.








End SignatureHeader.




(** ** The inbox endpoint *)

Lemma bind_Ok {A B : Type} (a : A) (f : A -> result B) : (Ok a ≫= f) = f a.
Proof. reflexivity. Qed.

Lemma isFederated_truthy (is_federated : jsval) : truthy (isFederated is_federated) = true.
Proof.
  unfold isFederated, js_or.
  by destruct (truthy is_federated) eqn:Hsetting.
Qed.

Section InboxFacts.

Variable fetch : option string -> option string.
Variable JSON_parse : string -> result json.
Variable Buffer_from_object : json -> result (list Byte.byte).
Variable base64_decode : string -> list Byte.byte.
Variable RSA_SHA256_verify : string -> list Byte.byte -> list Byte.byte -> result bool.

Abbreviation inbox' :=
  (inbox fetch JSON_parse Buffer_from_object base64_decode RSA_SHA256_verify).
Abbreviation on_actor' :=
  (on_actor JSON_parse Buffer_from_object base64_decode RSA_SHA256_verify).

(** Past the two guards the handler is the callback on the fetched body. *)
Lemma inbox_signed is_federated req signature :
  header_value req "signature" = Some signature ->
  signature ≠ "" ->
  inbox' is_federated req
  = on_actor' req (signature_header signature)
      (fetch (field (signature_header signature) "keyId")).
Proof.
  intros Hsig Hne. unfold inbox.
  rewrite isFederated_truthy. unfold req_get. cbn [Js.nonempty negb].
  rewrite Hsig. by destruct signature.
Qed.

Lemma inbox_unsigned is_federated req :
  signature_absent req ->
  inbox' is_federated req = Response 401 "No signature provided.".
Proof.
  intros Habsent. unfold inbox.
  rewrite isFederated_truthy. unfold req_get. cbn [Js.nonempty negb].
  by destruct Habsent as [-> | ->].
Qed.

(** The three answers of the second [try], by what [verify] says. *)
Lemma on_actor_verify req h actor publicKey comparison publicKeyBuf signatureBuf :
  actor_publicKey JSON_parse actor = Ok publicKey ->
  verifier_inputs Buffer_from_object base64_decode req h publicKey
    = Ok (comparison, publicKeyBuf, signatureBuf) ->
  on_actor' req h actor =
  match RSA_SHA256_verify comparison publicKeyBuf signatureBuf with
  | Ok true => ProcessInbox
  | Ok false => Response 401 "Signature could not be verified."
  | Throw err => Response 401 ("Signature could not be verified: " +:+ err)
  end.
Proof. intros Hkey Hinputs. unfold on_actor. by rewrite Hkey, Hinputs. Qed.

(** Without the [headers] field the [split] throws outside both [try]
    blocks. *)
Lemma inbox_without_headers_field is_federated req signature publicKey :
  header_value req "signature" = Some signature ->
  signature ≠ "" ->
  actor_publicKey JSON_parse (fetch (field (signature_header signature) "keyId"))
    = Ok publicKey ->
  field (signature_header signature) "headers" = None ->
  inbox' is_federated req
  = Uncaught "TypeError: Cannot read properties of undefined (reading 'split')".
Proof.
  intros Hsig Hne Hkey Hheaders.
  rewrite (inbox_signed _ _ _ Hsig Hne). unfold on_actor.
  rewrite Hkey. unfold verifier_inputs, headers_field. by rewrite Hheaders.
Qed.

Lemma actor_publicKey_pem actor doc key pem :
  parse_actor JSON_parse actor = Ok doc ->
  member (Some doc) "publicKey" = Ok key ->
  truthy key = true ->
  member key "publicKeyPem" = Ok (Some (JStr pem)) ->
  actor_publicKey JSON_parse actor = Ok (Some (JStr pem)).
Proof.
  intros Hdoc Hkey Htruthy Hpem. unfold actor_publicKey.
  rewrite Hdoc, bind_Ok, Hkey, bind_Ok, Htruthy, bind_Ok, Hkey, bind_Ok.
  exact Hpem.
Qed.

End InboxFacts.

(** C1. A request with a Signature header whose key URL yields a parseable
    actor document with a public key is handed to [processInbox] exactly
    when RSA-SHA256 verification of the base64-decoded signature value
    against the reconstructed comparison string under the fetched key
    answers true; when it does not, the response has status 401. *)
Theorem inbox_accepts_iff_verified
    (fetch : option string -> option string)
    (JSON_parse : string -> result json)
    (Buffer_from_object : json -> result (list Byte.byte))
    (base64_decode : string -> list Byte.byte)
    (RSA_SHA256_verify : string -> list Byte.byte -> list Byte.byte -> result bool)
    (is_federated : jsval) (req : request)
    (signature : string) (doc : json) (key : jsval) (pem hs sg comparison : string) :
  header_value req "signature" = Some signature ->
  signature ≠ "" ->
  parse_actor JSON_parse (fetch (field (signature_header signature) "keyId")) = Ok doc ->
  member (Some doc) "publicKey" = Ok key ->
  truthy key = true ->
  member key "publicKeyPem" = Ok (Some (JStr pem)) ->
  field (signature_header signature) "headers" = Some hs ->
  comparison_string req hs = Ok comparison ->
  field (signature_header signature) "signature" = Some sg ->
  (inbox fetch JSON_parse Buffer_from_object base64_decode RSA_SHA256_verify is_federated req
   = ProcessInbox
   ↔ RSA_SHA256_verify comparison (list_byte_of_string pem) (base64_decode sg) = Ok true) ∧
  (RSA_SHA256_verify comparison (list_byte_of_string pem) (base64_decode sg) ≠ Ok true ->
   ∃ body,
     inbox fetch JSON_parse Buffer_from_object base64_decode RSA_SHA256_verify is_federated req
     = Response 401 body).
Proof.
  intros Hsig Hne Hdoc Hkey Htruthy Hpem Hhs Hcmp Hsg.
  rewrite (inbox_signed _ _ _ _ _ _ _ _ Hsig Hne).
  rewrite (on_actor_verify _ _ _ _ _ _ _ (Some (JStr pem)) comparison
             (list_byte_of_string pem) (base64_decode sg)).
  - destruct (RSA_SHA256_verify comparison (list_byte_of_string pem) (base64_decode sg))
      as [[|]|err]; split; try (split; congruence); try congruence; eauto.
  - by eapply actor_publicKey_pem.
  - unfold verifier_inputs, headers_field.
    by rewrite Hhs, bind_Ok, Hcmp, bind_Ok, Hsg.
Qed.

Lemma inbox_accepts_iff_verified_witness :
  Sample.inbox None (Sample.signed Sample.good_signature) = ProcessInbox ∧
  ∃ body, Sample.inbox None (Sample.signed Sample.bad_signature) = Response 401 body.
Proof.
  split.
  - apply (proj1 (inbox_accepts_iff_verified
             Sample.fetch Sample.JSON_parse Sample.Buffer_from_object
             Sample.base64_decode Sample.RSA_SHA256_verify None
             (Sample.signed Sample.good_signature) Sample.good_signature
             Sample.actor_doc (Some (JObj [("publicKeyPem", JStr "PEM")]))
             "PEM" Sample.signed_headers "c2ln" Sample.signed_text
             eq_refl ltac:(discriminate) eq_refl eq_refl eq_refl eq_refl eq_refl eq_refl
             eq_refl)).
    reflexivity.
  - apply (proj2 (inbox_accepts_iff_verified
             Sample.fetch Sample.JSON_parse Sample.Buffer_from_object
             Sample.base64_decode Sample.RSA_SHA256_verify None
             (Sample.signed Sample.bad_signature) Sample.bad_signature
             Sample.actor_doc (Some (JObj [("publicKeyPem", JStr "PEM")]))
             "PEM" Sample.signed_headers "AAAA" Sample.signed_text
             eq_refl ltac:(discriminate) eq_refl eq_refl eq_refl eq_refl eq_refl eq_refl
             eq_refl)).
    discriminate.
Defined.

(** C2. Without a Signature header, or with one whose signature does not
    pass cryptographic verification, the response has status 401 and
    [processInbox], the only code that touches follower lists, is not
    reached. *)
Theorem inbox_rejects_unsigned_or_unverified
    (fetch : option string -> option string)
    (JSON_parse : string -> result json)
    (Buffer_from_object : json -> result (list Byte.byte))
    (base64_decode : string -> list Byte.byte)
    (RSA_SHA256_verify : string -> list Byte.byte -> list Byte.byte -> result bool)
    (is_federated : jsval) (req : request) :
  signature_absent req ∨
  verification_fails fetch JSON_parse Buffer_from_object base64_decode RSA_SHA256_verify req ->
  (∃ body,
     inbox fetch JSON_parse Buffer_from_object base64_decode RSA_SHA256_verify is_federated req
     = Response 401 body) ∧
  inbox fetch JSON_parse Buffer_from_object base64_decode RSA_SHA256_verify is_federated req
  ≠ ProcessInbox.
Proof.
  intros [Habsent | Hfails].
  - rewrite inbox_unsigned by done. split; [eauto | discriminate].
  - destruct Hfails as
      (signature & publicKey & comparison & publicKeyBuf & signatureBuf
       & Hsig & Hne & Hkey & Hinputs & Hverify).
    rewrite (inbox_signed _ _ _ _ _ _ _ _ Hsig Hne).
    rewrite (on_actor_verify _ _ _ _ _ _ _ _ _ _ _ Hkey Hinputs).
    destruct (RSA_SHA256_verify comparison publicKeyBuf signatureBuf) as [[|]|err];
      [done | split; [eauto | discriminate] ..].
Qed.

Lemma inbox_rejects_unsigned_or_unverified_witness :
  (∃ body, Sample.inbox None (Sample.post ∅) = Response 401 body) ∧
  Sample.inbox None (Sample.signed Sample.bad_signature) ≠ ProcessInbox.
Proof.
  split.
  - apply (inbox_rejects_unsigned_or_unverified
             Sample.fetch Sample.JSON_parse Sample.Buffer_from_object
             Sample.base64_decode Sample.RSA_SHA256_verify None (Sample.post ∅)).
    left. left. reflexivity.
  - apply (inbox_rejects_unsigned_or_unverified
             Sample.fetch Sample.JSON_parse Sample.Buffer_from_object
             Sample.base64_decode Sample.RSA_SHA256_verify None
             (Sample.signed Sample.bad_signature)).
    right.
    exists Sample.bad_signature, (Some (JStr "PEM")), Sample.signed_text,
      (list_byte_of_string "PEM"), (Sample.base64_decode "AAAA").
    repeat split; [discriminate | discriminate].
Defined.

(** C5, at the failing input. A complete actor answers, the header has no
    [headers] field: the [split] on [undefined] throws between the two
    [try] blocks and the handler ends without a response. *)
Theorem inbox_missing_headers_uncaught :
  Sample.inbox None (Sample.signed Sample.no_headers_signature)
  = Uncaught "TypeError: Cannot read properties of undefined (reading 'split')".
Proof.
  apply (inbox_without_headers_field
           Sample.fetch Sample.JSON_parse Sample.Buffer_from_object
           Sample.base64_decode Sample.RSA_SHA256_verify None
           (Sample.signed Sample.no_headers_signature) Sample.no_headers_signature
           (Some (JStr "PEM"))).
  - reflexivity.
  - discriminate.
  - reflexivity.
  - reflexivity.
Qed.

(** C6. When the fetch of the key URL fails, or its body cannot be parsed
    (it is no JSON, or the JSON text [null]), the response has status 500
    and the activity is not processed. *)
Theorem inbox_actor_unresolved
    (fetch : option string -> option string)
    (JSON_parse : string -> result json)
    (Buffer_from_object : json -> result (list Byte.byte))
    (base64_decode : string -> list Byte.byte)
    (RSA_SHA256_verify : string -> list Byte.byte -> list Byte.byte -> result bool)
    (is_federated : jsval) (req : request) (signature : string) :
  header_value req "signature" = Some signature ->
  signature ≠ "" ->
  actor_unresolved fetch JSON_parse (field (signature_header signature) "keyId") ->
  (∃ err,
     inbox fetch JSON_parse Buffer_from_object base64_decode RSA_SHA256_verify is_federated req
     = Response 500 ("Actor could not be parsed" +:+ err)) ∧
  inbox fetch JSON_parse Buffer_from_object base64_decode RSA_SHA256_verify is_federated req
  ≠ ProcessInbox.
Proof.
  intros Hsig Hne Hactor.
  rewrite (inbox_signed _ _ _ _ _ _ _ _ Hsig Hne).
  unfold on_actor, actor_publicKey.
  destruct Hactor as [-> | [(body & err & -> & Hparse) | (body & -> & Hparse)]];
    cbn [parse_actor].
  - split; [eexists; reflexivity | discriminate].
  - rewrite Hparse. split; [eexists; reflexivity | discriminate].
  - rewrite Hparse. split; [eexists; reflexivity | discriminate].
Qed.

Lemma inbox_actor_unresolved_witness :
  ∃ err,
    Sample.inbox None
      (Sample.signed
         (signature_of [("keyId", "https://gone.example/actor");
                        ("headers", Sample.signed_headers); ("signature", "c2ln")]))
    = Response 500 ("Actor could not be parsed" +:+ err).
Proof.
  apply (inbox_actor_unresolved
           Sample.fetch Sample.JSON_parse Sample.Buffer_from_object
           Sample.base64_decode Sample.RSA_SHA256_verify None
           (Sample.signed
              (signature_of [("keyId", "https://gone.example/actor");
                             ("headers", Sample.signed_headers); ("signature", "c2ln")]))
           (signature_of [("keyId", "https://gone.example/actor");
                          ("headers", Sample.signed_headers); ("signature", "c2ln")])).
  - reflexivity.
  - discriminate.
  - left. reflexivity.
Defined.

(** C9. For a boolean or missing setting [is_federated || true] is [true];
    for every value it is truthy; so the handler never answers with the 404
    of its first line, whatever the configuration. *)
Theorem inbox_always_federated :
  (∀ setting : option bool, isFederated (config_boolean setting) = Some (JBool true)) ∧
  (∀ is_federated : jsval, truthy (isFederated is_federated) = true) ∧
  (∀ fetch JSON_parse Buffer_from_object base64_decode RSA_SHA256_verify
     is_federated req status body,
     inbox fetch JSON_parse Buffer_from_object base64_decode RSA_SHA256_verify is_federated req
     = Response status body ->
     status ≠ 404).
Proof.
  split; [|split].
  - by intros [[|]|].
  - apply isFederated_truthy.
  - intros fetch JSON_parse Buffer_from_object base64_decode RSA_SHA256_verify
      is_federated req status body.
    unfold inbox. rewrite isFederated_truthy. cbn [negb].
    destruct (req_get req "signature") as [[signature|]|err]; [| congruence ..].
    destruct (negb (Js.nonempty signature)); [congruence|].
    unfold on_actor.
    destruct (actor_publicKey JSON_parse _) as [publicKey|err]; [|congruence].
    destruct (verifier_inputs _ _ _ _ _) as [[[comparison publicKeyBuf] signatureBuf]|err];
      [|congruence].
    destruct (RSA_SHA256_verify _ _ _) as [[|]|err]; congruence.
Qed.

(** ** The comparison string *)

Lemma header_value_ordinary req name :
  ordinary name = true -> header_value req name = request_header req name.
Proof.
  unfold ordinary, header_value, request_header, property, inherited.
  intros H. repeat (apply andb_prop in H as [H ?]).
  repeat match goal with
         | Hn : negb (String.eqb ?a ?b) = true |- _ =>
             apply negb_true_iff in Hn; rewrite Hn
         end.
  cbn [orb]. by destruct (req_headers req !! Js.toLowerCase name).
Qed.

Lemma ordinary_nonempty name : ordinary name = true -> Js.nonempty name = true.
Proof. unfold ordinary. intros H. by repeat (apply andb_prop in H as [H ?]). Qed.

Lemma comparison_line_canonical req name :
  ordinary name = true ->
  comparison_line req name = Ok (canonical_line "post /activitypub/inbox" req name).
Proof.
  intros Hname. unfold comparison_line, canonical_line.
  destruct (String.eqb name "(request-target)"); [done|].
  unfold req_get. rewrite (ordinary_nonempty _ Hname), bind_Ok.
  by rewrite (header_value_ordinary _ _ Hname).
Qed.

(** The request line of the code is one fixed text. *)
Lemma comparison_line_request_target req :
  comparison_line req "(request-target)" = Ok "(request-target): post /activitypub/inbox".
Proof. reflexivity. Qed.

Lemma map_throwing_total {A B : Type} (f : A -> result B) (g : A -> B) (l : list A) :
  Forall (fun x => f x = Ok (g x)) l -> map_throwing f l = Ok (map g l).
Proof.
  induction 1 as [|x l Hx _ IH]; [done|].
  cbn [map_throwing map]. by rewrite Hx, bind_Ok, IH.
Qed.

(** C4, as amended. The comparison string has one line for each name of
    the space-separated [headers] field, in the listed order, joined by
    line feeds. For [(request-target)] the line is that text, a colon and
    a space, and the fixed text [post /activitypub/inbox], whatever the
    method and the path of the request; it is the lower-cased method, a
    space and the request path for the requests routed to the inbox whose
    path is written exactly so. For any other name that is not empty, not
    a spelling of the referrer header and not inherited by every object,
    the line is the name, a colon and a space, and the value of that
    header in the request, or the text undefined when the request has no
    such header. *)
Theorem comparison_string_canonical (req : request) (headers : string) :
  Forall (fun name => ordinary name = true) (Js.split Js.space headers) ->
  comparison_string req headers
  = Ok (canonical_string "post /activitypub/inbox" req headers) ∧
  (routed_to_inbox req = true -> path req = "/activitypub/inbox" ->
   comparison_string req headers = Ok (canonical_string (request_target req) req headers)).
Proof.
  intros Hnames.
  assert (Hfixed : comparison_string req headers
                   = Ok (canonical_string "post /activitypub/inbox" req headers)).
  { unfold comparison_string, canonical_string.
    rewrite (map_throwing_total _ (canonical_line "post /activitypub/inbox" req)); [done|].
    eapply Forall_impl; [exact Hnames|].
    intros name Hname. by apply comparison_line_canonical. }
  split; [exact Hfixed|].
  intros Hrouted Hpath. rewrite Hfixed. do 2 f_equal.
  unfold routed_to_inbox in Hrouted. apply andb_prop in Hrouted as [Hmethod _].
  apply String.eqb_eq in Hmethod. unfold request_target. by rewrite Hmethod, Hpath.
Qed.

Lemma comparison_string_canonical_witness :
  comparison_string (Sample.signed Sample.good_signature) Sample.signed_headers
  = Ok Sample.signed_text ∧
  comparison_string (Sample.signed Sample.good_signature) Sample.signed_headers
  = Ok (canonical_string (request_target (Sample.signed Sample.good_signature))
          (Sample.signed Sample.good_signature) Sample.signed_headers).
Proof.
  pose proof (comparison_string_canonical
                (Sample.signed Sample.good_signature) Sample.signed_headers) as [H1 H2].
  - repeat constructor.
  - split; [exact H1 | exact (H2 eq_refl eq_refl)].
Defined.

(** C4, as stated, fails. For a request the route takes under another
    spelling of its path, the request line of the code keeps the spelling
    of the route. And a listed name is not always answered from the
    headers of the request: under [constructor], a header the request
    does not carry, the line holds the text of an inherited function, and
    under [referer] the value of the header spelled [referrer]. *)
Lemma comparison_string_not_from_request :
  (routed_to_inbox Sample.respelled_post = true ∧
   comparison_string Sample.respelled_post "(request-target) host"
   = Ok ("(request-target): post /activitypub/inbox" +:+ String Js.newline "host: gath.io") ∧
   comparison_string Sample.respelled_post "(request-target) host"
   ≠ Ok (canonical_string (request_target Sample.respelled_post)
           Sample.respelled_post "(request-target) host")) ∧
  (request_header (Sample.post ∅) "constructor" = None ∧
   comparison_string (Sample.post ∅) "constructor"
   = Ok "constructor: function Object() { [native code] }") ∧
  (request_header Sample.twice_referred_post "referer" = Some "https://a.example/" ∧
   comparison_string Sample.twice_referred_post "referer"
   = Ok "referer: https://b.example/").
Proof.
  split; [|split].
  - split; [reflexivity|]. split; [reflexivity|]. by vm_compute.
  - split; reflexivity.
  - split; by vm_compute.
Qed.

(** ** Broadcast, then delete *)

(** Invert a run along the shape of its command. *)
Ltac invert_trace :=
  repeat match goal with
         | H : trace Done _ |- _ => inversion H; subst; clear H
         | H : trace (Raise _) _ |- _ => inversion H; subst; clear H
         | H : trace (Log _ _ _ _) _ |- _ => inversion H; subst; clear H
         | H : trace (Unlink _ _) _ |- _ => inversion H; subst; clear H
         | H : trace (BroadcastDelete _ _ _ _) _ |- _ => inversion H; subst; clear H
         | H : trace (EventRemove _ _) _ |- _ => inversion H; subst; clear H
         | H : trace (EventDeleteOne _ _) _ |- _ => inversion H; subst; clear H
         | H : trace (Send _ _) _ |- _ => inversion H; subst; clear H
         | H : trace (Redirect _ _ _ _) _ |- _ => inversion H; subst; clear H
         | H : trace (SendEmails _) _ |- _ => inversion H; subst; clear H
         | H : trace (deleteEventFromDB _) _ |- _ => unfold deleteEventFromDB in H
         | H : trace (deleteEventFailed _ _ _) _ |- _ => unfold deleteEventFailed in H
         | H : trace (match ?r with Ok _ => _ | Throw _ => _ end) _ |- _ => destruct r
         | H : trace (if ?b then _ else _) _ |- _ => destruct b
         | H : trace (let _ := _ in _) _ |- _ => cbv zeta in H
         end.

(** The broadcast and its callback sit at one of the first positions. *)
Ltac broadcast_at i := exists i; eexists; split; [ lia | split; reflexivity ].

Ltac find_broadcast :=
  first [ broadcast_at 0 | broadcast_at 1 | broadcast_at 2 | broadcast_at 3 ].

(** Walk down a run that is an explicit list, keeping the positions that
    hold a removal. *)
Ltac scan_run n Hn Hs :=
  repeat (destruct n as [|n]; simpl in Hn;
          [ first [ discriminate Hn
                  | injection Hn as <-; first [ discriminate Hs | idtac ] ]
          | try discriminate Hn ]).

Section DeletionFacts.

Variable JSON_parse : string -> result json.

(** The scheduled job: both Deletes are out and acknowledged before the
    record is removed. *)
Lemma deleteOldEvent_ordered e jsonUpdateObject jsonEventObject t n s :
  present (activityPubActor e) = true ->
  present (activityPubEvent e) = true ->
  parse_stored JSON_parse (activityPubActor e) = Ok jsonUpdateObject ->
  parse_stored JSON_parse (activityPubEvent e) = Ok jsonEventObject ->
  trace (deleteOldEvent JSON_parse e) t ->
  t !! n = Some s ->
  is_removal s = true ->
  completed_before t n jsonUpdateObject (followers e) (id e) ∧
  completed_before t n jsonEventObject (followers e) (id e).
Proof.
  intros Hactor Hevent HjA HjE Htrace Hn Hs.
  unfold deleteOldEvent in Htrace.
  rewrite Hactor, Hevent, HjA, HjE in Htrace. cbn [andb] in Htrace.
  invert_trace; scan_run n Hn Hs; split; find_broadcast.
Qed.

(** Whatever the two callbacks report, the removal is issued. *)
Lemma deleteOldEvent_removes e jsonUpdateObject jsonEventObject statuses statuses' :
  present (activityPubActor e) = true ->
  present (activityPubEvent e) = true ->
  parse_stored JSON_parse (activityPubActor e) = Ok jsonUpdateObject ->
  parse_stored JSON_parse (activityPubEvent e) = Ok jsonEventObject ->
  ∃ t0,
    trace (deleteOldEvent JSON_parse e)
      (t0 ++ [SBroadcastDelete jsonUpdateObject (followers e) (id e);
              SCallback statuses;
              SBroadcastDelete jsonEventObject (followers e) (id e);
              SCallback statuses';
              SEventRemove (_id e)]).
Proof.
  intros Hactor Hevent HjA HjE.
  assert (Hrun : ∀ r : result unit,
    trace (BroadcastDelete jsonUpdateObject (followers e) (id e) (fun _ =>
             BroadcastDelete jsonEventObject (followers e) (id e) (fun _ =>
               deleteEventFromDB (_id e))))
      [SBroadcastDelete jsonUpdateObject (followers e) (id e);
       SCallback statuses;
       SBroadcastDelete jsonEventObject (followers e) (id e);
       SCallback statuses';
       SEventRemove (_id e)]).
  { intros r. do 2 apply trace_broadcast.
    apply (trace_remove _ _ r). apply trace_nil. }
  unfold deleteOldEvent. rewrite Hactor, Hevent, HjA, HjE. cbn [andb].
  destruct (present (image e)).
  - eexists [_]. apply trace_unlink. exact (Hrun (Ok tt)).
  - exists []. exact (Hrun (Ok tt)).
Qed.

(** The route: the Delete is out and acknowledged before [deleteOne]. *)
Lemma deleteEvent_ordered sendEmails e eventID jsonUpdateObject t n s :
  parse_stored JSON_parse (activityPubActor e) = Ok jsonUpdateObject ->
  trace (deleteEvent JSON_parse sendEmails (Ok (Some e)) eventID (editToken e)) t ->
  t !! n = Some s ->
  is_removal s = true ->
  completed_before t n jsonUpdateObject (followers e) eventID.
Proof.
  intros HjA Htrace Hn Hs.
  unfold deleteEvent in Htrace.
  rewrite String.eqb_refl, HjA in Htrace.
  invert_trace; scan_run n Hn Hs; find_broadcast.
Qed.

Lemma deleteEvent_removes sendEmails e eventID jsonUpdateObject statuses :
  parse_stored JSON_parse (activityPubActor e) = Ok jsonUpdateObject ->
  trace (deleteEvent JSON_parse sendEmails (Ok (Some e)) eventID (editToken e))
    [SBroadcastDelete jsonUpdateObject (followers e) eventID;
     SCallback statuses;
     SEventDeleteOne eventID].
Proof.
  intros HjA. unfold deleteEvent. rewrite String.eqb_refl, HjA.
  apply trace_broadcast. apply (trace_deleteOne _ _ (Ok tt)). apply trace_nil.
Qed.

End DeletionFacts.

(** C7. An event whose stored actor snapshot parses is deleted this way.
    In the scheduled job, when both ActivityPub fields are stored, and in
    the delete route, when the edit token matches, every removal step of
    every run comes after the Delete broadcast of the parsed snapshot (in
    the job also of the parsed event object) and after the firing of its
    completion callback; and for every list of delivery outcomes the
    callback may report there is the run that goes on to the removal. *)
Theorem delete_broadcast_precedes_removal
    (JSON_parse : string -> result json) (e : event) (jsonUpdateObject : json) :
  parse_stored JSON_parse (activityPubActor e) = Ok jsonUpdateObject ->
  (∀ jsonEventObject,
     present (activityPubActor e) = true ->
     present (activityPubEvent e) = true ->
     parse_stored JSON_parse (activityPubEvent e) = Ok jsonEventObject ->
     (∀ t n s,
        trace (deleteOldEvent JSON_parse e) t -> t !! n = Some s -> is_removal s = true ->
        completed_before t n jsonUpdateObject (followers e) (id e) ∧
        completed_before t n jsonEventObject (followers e) (id e)) ∧
     (∀ statuses statuses', ∃ t0,
        trace (deleteOldEvent JSON_parse e)
          (t0 ++ [SBroadcastDelete jsonUpdateObject (followers e) (id e);
                  SCallback statuses;
                  SBroadcastDelete jsonEventObject (followers e) (id e);
                  SCallback statuses';
                  SEventRemove (_id e)]))) ∧
  (∀ sendEmails eventID,
     (∀ t n s,
        trace (deleteEvent JSON_parse sendEmails (Ok (Some e)) eventID (editToken e)) t ->
        t !! n = Some s -> is_removal s = true ->
        completed_before t n jsonUpdateObject (followers e) eventID) ∧
     (∀ statuses,
        trace (deleteEvent JSON_parse sendEmails (Ok (Some e)) eventID (editToken e))
          [SBroadcastDelete jsonUpdateObject (followers e) eventID;
           SCallback statuses;
           SEventDeleteOne eventID])).
Proof.
  intros HjA. split.
  - intros jsonEventObject Hactor Hevent HjE. split.
    + intros t n s. by apply deleteOldEvent_ordered.
    + intros statuses statuses'. by apply deleteOldEvent_removes.
  - intros sendEmails eventID. split.
    + intros t n s. by apply deleteEvent_ordered.
    + intros statuses. by apply deleteEvent_removes.
Qed.

Lemma delete_broadcast_precedes_removal_witness :
  trace (deleteEvent Sample.JSON_parse false (Ok (Some Sample.stored_event))
           "Ab3dEfGh1jKlMn0pQrStU" "s3cr3t")
    [SBroadcastDelete Sample.actor_doc [JStr "https://remote.example/follower"]
       "Ab3dEfGh1jKlMn0pQrStU";
     SCallback [Failed "Error: ETIMEDOUT"];
     SEventDeleteOne "Ab3dEfGh1jKlMn0pQrStU"].
Proof.
  exact (proj2 (proj2 (delete_broadcast_precedes_removal
                         Sample.JSON_parse Sample.stored_event Sample.actor_doc eq_refl)
                  false "Ab3dEfGh1jKlMn0pQrStU")
           [Failed "Error: ETIMEDOUT"]).
Defined.

(** ** The event page *)

Section EventPageFacts.

Variable media_types : request -> list string.
Variable JSON_parse : string -> result json.
Variable Locals : Type.
Variable event_locals : event -> request -> result Locals.

Abbreviation getEvent' := (getEvent media_types JSON_parse Locals event_locals).
Abbreviation acceptsActivityPub' := (acceptsActivityPub media_types).

Lemma getEvent_federated e req locals :
  event_locals e req = Ok locals ->
  acceptsActivityPub' req = true ->
  getEvent' (Ok (Some e)) req =
  match JSON_parse (or_string (activityPubActor e) "{}") with
  | Throw err => Rendered 404 "404" None [("Content-Type", activityPubContentType)]
  | Ok actor => Sent [("Content-Type", activityPubContentType)] actor
  end.
Proof. intros Hlocals Haccepts. unfold getEvent. by rewrite Hlocals, Haccepts. Qed.

Lemma getEvent_page e req locals :
  event_locals e req = Ok locals ->
  acceptsActivityPub' req = false ->
  getEvent' (Ok (Some e)) req
  = Rendered 200 "event" (Some locals) [("X-Robots-Tag", "noindex")].
Proof. intros Hlocals Haccepts. unfold getEvent. by rewrite Hlocals, Haccepts. Qed.

End EventPageFacts.

(** C8. For an event that is found and whose page data is computed: when
    the request negotiates the ActivityPub content type, the body is the
    stored actor document, parsed, under the ActivityPub content type; when
    the request accepts only text/html, the event page is rendered. A
    request that accepts only application/activity+json, or only the
    ActivityPub content type, negotiates it. *)
Theorem getEvent_negotiates
    (media_types : request -> list string)
    (JSON_parse : string -> result json)
    (Locals : Type) (event_locals : event -> request -> result Locals)
    (e : event) (req : request) (locals : Locals) :
  event_locals e req = Ok locals ->
  (∀ stored actor,
     acceptsActivityPub media_types req = true ->
     activityPubActor e = Some stored -> stored ≠ "" -> JSON_parse stored = Ok actor ->
     getEvent media_types JSON_parse Locals event_locals (Ok (Some e)) req
     = Sent [("Content-Type", activityPubContentType)] actor) ∧
  (media_types req = ["text/html"] ->
     getEvent media_types JSON_parse Locals event_locals (Ok (Some e)) req
     = Rendered 200 "event" (Some locals) [("X-Robots-Tag", "noindex")]) ∧
  (media_types req = ["application/activity+json"] ∨ media_types req = [activityPubContentType] ->
     acceptsActivityPub media_types req = true).
Proof.
  intros Hlocals. split; [|split].
  - intros stored actor Haccepts Hstored Hne Hparse.
    rewrite (getEvent_federated _ _ _ _ _ _ _ Hlocals Haccepts), Hstored.
    destruct stored; [done|]. cbn [or_string Js.nonempty]. by rewrite Hparse.
  - intros Hhtml. apply (getEvent_page _ _ _ _ _ _ _ Hlocals).
    unfold acceptsActivityPub. by rewrite Hhtml.
  - unfold acceptsActivityPub. by intros [-> | ->].
Qed.

Lemma getEvent_negotiates_witness :
  Sample.getEvent (Ok (Some Sample.stored_event)) (Sample.get ["application/activity+json"])
  = Sent [("Content-Type", activityPubContentType)] Sample.actor_doc ∧
  Sample.getEvent (Ok (Some Sample.stored_event)) (Sample.get ["text/html"])
  = Rendered 200 "event" (Some tt) [("X-Robots-Tag", "noindex")].
Proof.
  split.
  - apply (proj1 (getEvent_negotiates
             Sample.media_types Sample.JSON_parse unit
             (fun _ _ => Ok tt) Sample.stored_event
             (Sample.get ["application/activity+json"]) tt eq_refl)
             Sample.actor_body Sample.actor_doc eq_refl eq_refl ltac:(discriminate) eq_refl).
  - apply (proj1 (proj2 (getEvent_negotiates
             Sample.media_types Sample.JSON_parse unit
             (fun _ _ => Ok tt) Sample.stored_event (Sample.get ["text/html"]) tt eq_refl))
             eq_refl).
Defined.

(** C10. For an event that is found and whose page data is computed, a
    request that negotiates the ActivityPub content type while no actor
    snapshot is stored is answered with the empty object under the
    ActivityPub content type, not with an error page. *)
Theorem getEvent_without_snapshot
    (media_types : request -> list string)
    (JSON_parse : string -> result json)
    (Locals : Type) (event_locals : event -> request -> result Locals)
    (e : event) (req : request) (locals : Locals) :
  JSON_parse "{}" = Ok (JObj []) ->
  event_locals e req = Ok locals ->
  acceptsActivityPub media_types req = true ->
  present (activityPubActor e) = false ->
  getEvent media_types JSON_parse Locals event_locals (Ok (Some e)) req
  = Sent [("Content-Type", activityPubContentType)] (JObj []).
Proof.
  intros Hempty Hlocals Haccepts Habsent.
  rewrite (getEvent_federated _ _ _ _ _ _ _ Hlocals Haccepts).
  replace (or_string (activityPubActor e) "{}") with "{}".
  - by rewrite Hempty.
  - unfold or_string, present in *. destruct (activityPubActor e) as [stored|]; [|done].
    by rewrite Habsent.
Qed.

Lemma getEvent_without_snapshot_witness :
  Sample.getEvent (Ok (Some Sample.plain_event)) (Sample.get ["application/activity+json"])
  = Sent [("Content-Type", activityPubContentType)] (JObj []).
Proof.
  exact (getEvent_without_snapshot
           Sample.media_types Sample.JSON_parse unit
           (fun _ _ => Ok tt) Sample.plain_event
           (Sample.get ["application/activity+json"]) tt eq_refl eq_refl eq_refl eq_refl).
Defined.

(** * Further properties of the code *)

(** ** The comparison string: what it covers *)

Section ComparisonFacts.

Import Js.

Lemma append_assoc (a b c : string) : (a +:+ b) +:+ c = a +:+ (b +:+ c).
Proof.
  induction a as [|x a IH]; [done|].
  change (String x ((a +:+ b) +:+ c) = String x (a +:+ (b +:+ c))).
  by rewrite IH.
Qed.

Lemma append_cancel_l (p v w : string) : p +:+ v = p +:+ w -> v = w.
Proof.
  induction p as [|x p IH]; [done|].
  change (String x (p +:+ v) = String x (p +:+ w) -> v = w).
  intros [= H]. by apply IH.
Qed.

(** Two texts without line feed that are followed by a line feed. *)
Lemma append_newline_inj (v w r r' : string) :
  occurs newline v = false ->
  occurs newline w = false ->
  v +:+ String newline r = w +:+ String newline r' ->
  v = w ∧ r = r'.
Proof.
  revert w. induction v as [|a v IH]; intros [|b w]; simpl; intros Hv Hw Heq.
  - by injection Heq as ->.
  - injection Heq as <- _. by rewrite Ascii.eqb_refl in Hw.
  - injection Heq as -> _. by rewrite Ascii.eqb_refl in Hv.
  - injection Heq as -> Heq.
    apply orb_false_iff in Hv as [_ Hv]. apply orb_false_iff in Hw as [_ Hw].
    destruct (IH w Hv Hw Heq) as [-> ->]. done.
Qed.

(** Lines that share their beginnings and end in texts without line feed
    are read back one by one from their join. *)
Lemma join_lines_inj (lines : list (string * string * string)) :
  Forall (fun l => occurs newline l.1.2 = false ∧ occurs newline l.2 = false) lines ->
  join (String newline "") (map (fun l => l.1.1 +:+ l.1.2) lines)
  = join (String newline "") (map (fun l => l.1.1 +:+ l.2) lines) ->
  Forall (fun l => l.1.2 = l.2) lines.
Proof.
  induction 1 as [|[[p v] w] rest [Hv Hw] Hrest IH]; [done|].
  cbn [fst snd] in Hv, Hw.
  destruct rest as [|next rest].
  - unfold join. cbn. intros Heq. constructor; [|done]. by apply append_cancel_l in Heq.
  - unfold join in *.
    change (String.concat (String newline "") (map ?f ((p, v, w) :: next :: rest)))
      with (f (p, v, w) +:+ String newline (String.concat (String newline "") (map f (next :: rest)))).
    cbn [fst snd]. rewrite !append_assoc. intros Heq.
    apply append_cancel_l in Heq.
    destruct (append_newline_inj _ _ _ _ Hv Hw Heq) as [Hvw Htail].
    constructor; [exact Hvw|]. by apply IH.
Qed.

(** The line the code writes for a name: only the empty name throws. *)
Lemma comparison_line_Ok req name line :
  comparison_line req name = Ok line ->
  name ≠ "" ∧
  line = if String.eqb name "(request-target)"
         then "(request-target): post /activitypub/inbox"
         else name +:+ ": " +:+ template (header_value req name).
Proof.
  unfold comparison_line, req_get.
  destruct (String.eqb name "(request-target)") eqn:Htarget.
  - intros [= <-]. split; [|done]. by intros ->.
  - destruct name; [done|]. cbn. intros [= <-]. done.
Qed.

Lemma comparison_line_Throw req name err :
  comparison_line req name = Throw err -> name = "".
Proof.
  unfold comparison_line, req_get.
  destruct (String.eqb name "(request-target)"); [done|].
  by destruct name.
Qed.

Lemma map_throwing_Ok_inv {A B : Type} (f : A -> result B) l ys :
  map_throwing f l = Ok ys -> ys = omap (fun x => match f x with Ok y => Some y | Throw _ => None end) l
                              ∧ Forall (fun x => ∃ y, f x = Ok y) l.
Proof.
  revert ys. induction l as [|x l IH]; intros ys; cbn [map_throwing].
  - by intros [= <-].
  - destruct (f x) as [y|err] eqn:Hx; [|done]. rewrite bind_Ok.
    destruct (map_throwing f l) as [ys'|err] eqn:Hl; [|done]. rewrite bind_Ok.
    intros [= <-]. destruct (IH ys' eq_refl) as [-> Hall].
    split; [cbn; by rewrite Hx | constructor; eauto].
Qed.

Lemma map_throwing_ext {A B : Type} (f g : A -> result B) l :
  (∀ x, x ∈ l -> f x = g x) -> map_throwing f l = map_throwing g l.
Proof.
  induction l as [|x l IH]; [done|]. intros Hext. cbn [map_throwing].
  rewrite (Hext x) by left. rewrite IH; [done|].
  intros y Hy. apply Hext. by right.
Qed.

Lemma map_throwing_Throw {A B : Type} (f : A -> result B) l :
  (∃ err, map_throwing f l = Throw err) ↔ ∃ x err, x ∈ l ∧ f x = Throw err.
Proof.
  induction l as [|x l IH]; cbn [map_throwing].
  - split; [by intros [? ?] | intros (x & err & Hin & _); by apply elem_of_nil in Hin].
  - destruct (f x) as [y|err] eqn:Hx.
    + rewrite bind_Ok. destruct (map_throwing f l) as [ys|err] eqn:Hl.
      * rewrite bind_Ok. split; [by intros [? ?]|].
        intros (z & err & Hin & Hz). apply elem_of_cons in Hin as [-> | Hin]; [congruence|].
        destruct (proj2 IH) as [? ?]; [eauto | done].
      * split; [|eauto]. intros _.
        destruct (proj1 IH) as (z & err' & Hin & Hz); [eauto|].
        exists z, err'. split; [by right | done].
    + split; [|eauto]. intros _. exists x, err. split; [by left | done].
Qed.

End ComparisonFacts.

Section CoverageFacts.

Import Js.

Lemma append_empty_r (s : string) : s +:+ "" = s.
Proof.
  induction s as [|a s IH]; [done|].
  change (String a (s +:+ "") = String a s). by rewrite IH.
Qed.

Lemma comparison_line_written req name :
  name ≠ "" -> comparison_line req name = Ok (written_line req name).
Proof.
  intros Hname. unfold comparison_line, written_line, req_get.
  destruct (String.eqb name "(request-target)"); [done|]. by destruct name.
Qed.

(** A comparison string that is built is the join of the written lines. *)
Lemma comparison_string_Ok req headers signed :
  comparison_string req headers = Ok signed ->
  Forall (fun name => name ≠ "") (split space headers) ∧
  signed = join (String newline "") (map (written_line req) (split space headers)).
Proof.
  unfold comparison_string. intros Hsigned.
  assert (Hnames : Forall (fun name => name ≠ "") (split space headers)).
  { apply Forall_forall. intros name Hin ->.
    destruct (map_throwing (comparison_line req) (split space headers)) as [lines|err] eqn:Hlines;
      [|done].
    apply map_throwing_Ok_inv in Hlines as [_ Hall].
    rewrite Forall_forall in Hall. destruct (Hall "" Hin) as [line Hline]. done. }
  split; [done|].
  rewrite (map_throwing_total _ (written_line req)) in Hsigned.
  - rewrite bind_Ok in Hsigned. by injection Hsigned as <-.
  - eapply Forall_impl; [exact Hnames|]. intros name Hname.
    by apply comparison_line_written.
Qed.

Lemma comparison_string_Throw req headers :
  (∃ err, comparison_string req headers = Throw err) ↔ "" ∈ split space headers.
Proof.
  unfold comparison_string. split.
  - intros [err Herr].
    destruct (map_throwing (comparison_line req) (split space headers)) as [lines|err'] eqn:Hlines;
      [done|].
    destruct (proj1 (map_throwing_Throw (comparison_line req) (split space headers)))
      as (name & err'' & Hin & Hname); [eauto|].
    by apply comparison_line_Throw in Hname as ->.
  - intros Hin.
    destruct (proj2 (map_throwing_Throw (comparison_line req) (split space headers)))
      as [err Herr].
    + exists "", "TypeError: name argument is required to req.get". done.
    + exists err. by rewrite Herr.
Qed.

End CoverageFacts.

(** X1. Tamper evidence. When two requests give the same comparison string
    for the same [headers] field, and the header values in play hold no
    line feed, every listed header other than the request line has the
    same value (as the template literal prints it) in both requests. *)
Theorem comparison_string_tamper_evident (req1 req2 : request) (headers signed : string) :
  comparison_string req1 headers = Ok signed ->
  comparison_string req2 headers = Ok signed ->
  (∀ name, name ∈ Js.split Js.space headers ->
     occurs Js.newline (Js.template (header_value req1 name)) = false ∧
     occurs Js.newline (Js.template (header_value req2 name)) = false) ->
  ∀ name, name ∈ Js.split Js.space headers -> name ≠ "(request-target)" ->
    Js.template (header_value req1 name) = Js.template (header_value req2 name).
Proof.
  intros H1 H2 Hclean name Hin Htarget.
  apply comparison_string_Ok in H1 as [_ H1]. apply comparison_string_Ok in H2 as [_ H2].
  set (start := fun name : string =>
         if String.eqb name "(request-target)" then "(request-target): post /activitypub/inbox"
         else name +:+ ": ").
  set (value := fun (req : request) (name : string) =>
         if String.eqb name "(request-target)" then ""
         else Js.template (header_value req name)).
  assert (Hline : ∀ req n, written_line req n = start n +:+ value req n).
  { intros req n. unfold written_line, start, value.
    destruct (String.eqb n "(request-target)"); [by rewrite append_empty_r|].
    by rewrite append_assoc. }
  set (lines := map (fun n => (start n, value req1 n, value req2 n)) (Js.split Js.space headers)).
  assert (Hall : Forall (fun l => l.1.2 = l.2) lines).
  { apply join_lines_inj.
    - apply Forall_map, Forall_forall. intros n Hn. cbn [fst snd]. unfold value.
      destruct (String.eqb n "(request-target)"); [done|]. by apply Hclean.
    - assert (Hleft : map (fun l : string * string * string => l.1.1 +:+ l.1.2) lines
                      = map (written_line req1) (Js.split Js.space headers)).
      { unfold lines. rewrite map_map. apply List.map_ext. intros n. exact (eq_sym (Hline _ n)). }
      assert (Hright : map (fun l : string * string * string => l.1.1 +:+ l.2) lines
                       = map (written_line req2) (Js.split Js.space headers)).
      { unfold lines. rewrite map_map. apply List.map_ext. intros n. exact (eq_sym (Hline _ n)). }
      rewrite Hleft, Hright. congruence. }
  assert (Hline' : (start name, value req1 name, value req2 name) ∈ lines).
  { unfold lines. apply list_elem_of_fmap. by exists name. }
  rewrite Forall_forall in Hall. apply Hall in Hline'.
  cbn [fst snd] in Hline'. unfold value in Hline'.
  apply String.eqb_neq in Htarget. by rewrite Htarget in Hline'.
Qed.

Lemma comparison_string_tamper_evident_witness :
  Js.template (header_value (Sample.signed Sample.good_signature) "date")
  = Js.template
      (header_value
         (Sample.post {[ "host" := "gath.io";
                         "date" := "Tue, 03 Nov 2026 10:00:00 GMT";
                         "user-agent" := "http.rb/5.1.1 (Mastodon/4.2.0)" ]})
         "date").
Proof.
  apply (comparison_string_tamper_evident
           (Sample.signed Sample.good_signature)
           (Sample.post {[ "host" := "gath.io";
                           "date" := "Tue, 03 Nov 2026 10:00:00 GMT";
                           "user-agent" := "http.rb/5.1.1 (Mastodon/4.2.0)" ]})
           Sample.signed_headers Sample.signed_text).
  - by vm_compute.
  - by vm_compute.
  - intros name Hin.
    repeat (apply elem_of_cons in Hin as [-> | Hin]; [by vm_compute|]).
    by apply elem_of_nil in Hin.
  - by do 2 right; left.
  - discriminate.
Defined.

(** X2. Only the listed headers count. Two requests with the same
    Signature header that agree on every header the [headers] field
    lists get the same outcome, whatever else differs between them:
    method, path and every other header. *)
Theorem inbox_reads_listed_headers_only
    (fetch : option string -> option string)
    (JSON_parse : string -> result json)
    (Buffer_from_object : json -> result (list Byte.byte))
    (base64_decode : string -> list Byte.byte)
    (RSA_SHA256_verify : string -> list Byte.byte -> list Byte.byte -> result bool)
    (is_federated : jsval) (req1 req2 : request) :
  header_value req1 "signature" = header_value req2 "signature" ->
  (∀ signature hs name,
     header_value req1 "signature" = Some signature ->
     field (signature_header signature) "headers" = Some hs ->
     name ∈ Js.split Js.space hs ->
     header_value req1 name = header_value req2 name) ->
  inbox fetch JSON_parse Buffer_from_object base64_decode RSA_SHA256_verify is_federated req1
  = inbox fetch JSON_parse Buffer_from_object base64_decode RSA_SHA256_verify is_federated req2.
Proof.
  intros Hsig Hlisted. unfold inbox. rewrite isFederated_truthy. cbn [negb].
  unfold req_get. cbn [Js.nonempty]. rewrite <- Hsig.
  destruct (header_value req1 "signature") as [signature|] eqn:Hsignature; [|done].
  destruct (negb (Js.nonempty signature)); [done|]. cbv zeta.
  unfold on_actor.
  destruct (actor_publicKey JSON_parse _) as [publicKey|err]; [|done].
  replace (verifier_inputs Buffer_from_object base64_decode req2 (signature_header signature)
             publicKey)
    with (verifier_inputs Buffer_from_object base64_decode req1 (signature_header signature)
            publicKey); [done|].
  unfold verifier_inputs, headers_field.
  destruct (field (signature_header signature) "headers") as [hs|] eqn:Hhs; [|done].
  rewrite !bind_Ok.
  replace (comparison_string req2 hs) with (comparison_string req1 hs); [done|].
  unfold comparison_string. f_equal.
  apply map_throwing_ext. intros name Hin.
  unfold comparison_line, req_get.
  by rewrite (Hlisted signature hs name eq_refl Hhs Hin).
Qed.

Lemma inbox_reads_listed_headers_only_witness :
  Sample.inbox None (Sample.signed Sample.good_signature)
  = Sample.inbox None
      {| method := "PUT"; path := "/somewhere/else";
         req_headers := {[ "host" := "gath.io";
                           "date" := "Tue, 03 Nov 2026 10:00:00 GMT";
                           "digest" := "SHA-256=tampered";
                           "signature" := Sample.good_signature ]} |}.
Proof.
  apply (inbox_reads_listed_headers_only
           Sample.fetch Sample.JSON_parse Sample.Buffer_from_object
           Sample.base64_decode Sample.RSA_SHA256_verify None
           (Sample.signed Sample.good_signature)).
  - reflexivity.
  - intros signature hs name Hsignature Hhs Hin.
    injection Hsignature as <-. injection Hhs as <-.
    repeat (apply elem_of_cons in Hin as [-> | Hin]; [by vm_compute|]).
    by apply elem_of_nil in Hin.
Defined.

(** ** Signature headers with a space after the comma *)

Section SpacedHeaderFacts.

Import Js.






End SpacedHeaderFacts.



(** ** The ways out of the inbox callback *)

Section CallbackFacts.

Variable fetch : option string -> option string.
Variable JSON_parse : string -> result json.
Variable Buffer_from_object : json -> result (list Byte.byte).
Variable base64_decode : string -> list Byte.byte.
Variable RSA_SHA256_verify : string -> list Byte.byte -> list Byte.byte -> result bool.

(** The code between the two [try] blocks throws in four cases. *)
Lemma verifier_inputs_Throw req (h : gmap string (option string)) publicKey :
  (∃ err, verifier_inputs Buffer_from_object base64_decode req h publicKey = Throw err) ↔
  field h "headers" = None ∨
  (∃ hs, field h "headers" = Some hs ∧ "" ∈ Js.split Js.space hs) ∨
  (∃ err, Buffer_from_ascii Buffer_from_object publicKey = Throw err) ∨
  field h "signature" = None.
Proof.
  unfold verifier_inputs, headers_field.
  destruct (field h "headers") as [hs|] eqn:Hhs.
  2: { split; [by left | intros _; by eexists]. }
  rewrite bind_Ok.
  destruct (comparison_string req hs) as [comparison|err] eqn:Hcmp.
  2: { split; [|intros _; by eexists]. intros _. right; left. exists hs. split; [done|].
       apply (comparison_string_Throw req). eauto. }
  assert (Hnames : "" ∉ Js.split Js.space hs).
  { intros Hin. apply (comparison_string_Throw req) in Hin as [err Herr]. congruence. }
  rewrite bind_Ok.
  destruct (Buffer_from_ascii Buffer_from_object publicKey) as [publicKeyBuf|err] eqn:Hkey.
  2: { split; [|intros _; by eexists]. intros _. right; right; left. eauto. }
  rewrite bind_Ok. unfold Buffer_from_base64.
  destruct (field h "signature") as [sg|] eqn:Hsg.
  - rewrite bind_Ok. split; [by intros [? ?]|].
    intros [? | [(hs' & [= <-] & Hin) | [[err ?] | ?]]]; done.
  - split; [|intros _; by eexists]. intros _. by right; right; right.
Qed.

End CallbackFacts.

(** X4. The handler ends in an exception nobody catches exactly when the
    actor's key was read and then the header has no [headers] field, or
    that field lists an empty name (a doubled or leading space), or the
    key is no value a buffer can be made of, or the header has no
    [signature] field. *)
Theorem inbox_uncaught_iff
    (fetch : option string -> option string)
    (JSON_parse : string -> result json)
    (Buffer_from_object : json -> result (list Byte.byte))
    (base64_decode : string -> list Byte.byte)
    (RSA_SHA256_verify : string -> list Byte.byte -> list Byte.byte -> result bool)
    (is_federated : jsval) (req : request) (signature : string) :
  header_value req "signature" = Some signature ->
  signature ≠ "" ->
  (∃ err,
     inbox fetch JSON_parse Buffer_from_object base64_decode RSA_SHA256_verify is_federated req
     = Uncaught err) ↔
  ∃ publicKey,
    actor_publicKey JSON_parse (fetch (field (signature_header signature) "keyId"))
    = Ok publicKey ∧
    (field (signature_header signature) "headers" = None ∨
     (∃ hs, field (signature_header signature) "headers" = Some hs ∧
            "" ∈ Js.split Js.space hs) ∨
     (∃ err, Buffer_from_ascii Buffer_from_object publicKey = Throw err) ∨
     field (signature_header signature) "signature" = None).
Proof.
  intros Hsig Hne.
  rewrite (inbox_signed _ _ _ _ _ _ _ _ Hsig Hne). unfold on_actor.
  destruct (actor_publicKey JSON_parse _) as [publicKey|err] eqn:Hkey.
  2: { split; [by intros [? ?] | by intros (? & ? & _)]. }
  split.
  - intros [err Herr]. exists publicKey. split; [done|].
    apply (verifier_inputs_Throw Buffer_from_object base64_decode req).
    destruct (verifier_inputs _ _ _ _ _) as [[[comparison publicKeyBuf] signatureBuf]|err'];
      [|eauto].
    by destruct (RSA_SHA256_verify comparison publicKeyBuf signatureBuf) as [[|]|].
  - intros (publicKey' & [= <-] & Hcase).
    apply (verifier_inputs_Throw Buffer_from_object base64_decode req) in Hcase as [err Herr].
    rewrite Herr. eauto.
Qed.

Lemma inbox_uncaught_iff_witness :
  ∃ err,
    Sample.inbox None
      (Sample.signed
         (signature_of [("keyId", Sample.keyId); ("headers", "host  date");
                        ("signature", "c2ln")]))
    = Uncaught err.
Proof.
  apply (proj2 (inbox_uncaught_iff
                  Sample.fetch Sample.JSON_parse Sample.Buffer_from_object
                  Sample.base64_decode Sample.RSA_SHA256_verify None
                  (Sample.signed
                     (signature_of [("keyId", Sample.keyId); ("headers", "host  date");
                                    ("signature", "c2ln")]))
                  (signature_of [("keyId", Sample.keyId); ("headers", "host  date");
                                 ("signature", "c2ln")])
                  eq_refl ltac:(discriminate))).
  exists (Some (JStr "PEM")). split; [reflexivity|].
  right; left. exists "host  date". split; [reflexivity|].
  vm_compute. by right; left.
Defined.

(** X5. An actor document without a truthy [publicKey] is not answered
    with 500: the key stays the empty text and the decision is left to the
    verifier, called with an empty key buffer. *)
Theorem inbox_actor_without_key
    (fetch : option string -> option string)
    (JSON_parse : string -> result json)
    (Buffer_from_object : json -> result (list Byte.byte))
    (base64_decode : string -> list Byte.byte)
    (RSA_SHA256_verify : string -> list Byte.byte -> list Byte.byte -> result bool)
    (is_federated : jsval) (req : request)
    (signature : string) (doc : json) (key : jsval) (hs sg comparison : string) :
  header_value req "signature" = Some signature ->
  signature ≠ "" ->
  parse_actor JSON_parse (fetch (field (signature_header signature) "keyId")) = Ok doc ->
  member (Some doc) "publicKey" = Ok key ->
  truthy key = false ->
  field (signature_header signature) "headers" = Some hs ->
  comparison_string req hs = Ok comparison ->
  field (signature_header signature) "signature" = Some sg ->
  inbox fetch JSON_parse Buffer_from_object base64_decode RSA_SHA256_verify is_federated req
  = match RSA_SHA256_verify comparison [] (base64_decode sg) with
    | Ok true => ProcessInbox
    | Ok false => Response 401 "Signature could not be verified."
    | Throw err => Response 401 ("Signature could not be verified: " +:+ err)
    end.
Proof.
  intros Hsig Hne Hdoc Hkey Hfalsy Hhs Hcmp Hsg.
  rewrite (inbox_signed _ _ _ _ _ _ _ _ Hsig Hne).
  apply (on_actor_verify _ _ _ _ _ _ _ (Some (JStr ""))).
  - unfold actor_publicKey. by rewrite Hdoc, bind_Ok, Hkey, bind_Ok, Hfalsy.
  - unfold verifier_inputs, headers_field.
    by rewrite Hhs, bind_Ok, Hcmp, bind_Ok, Hsg.
Qed.

Lemma inbox_actor_without_key_witness :
  Fixture.keyless_inbox None (Sample.signed Sample.good_signature)
  = Response 401
      "Signature could not be verified: Error: error:1E08010C:DECODER routines::unsupported".
Proof.
  apply (inbox_actor_without_key
           Fixture.keyless_fetch Sample.JSON_parse Sample.Buffer_from_object
           Sample.base64_decode Sample.RSA_SHA256_verify None
           (Sample.signed Sample.good_signature) Sample.good_signature
           (JObj []) None Sample.signed_headers "c2ln" Sample.signed_text
           eq_refl ltac:(discriminate) eq_refl eq_refl eq_refl eq_refl).
  - by vm_compute.
  - reflexivity.
Defined.

(** ** What the deletion paths do not do *)

(** Go through the members of a run that is an explicit list. *)
Ltac scan_members Hin :=
  repeat (apply elem_of_cons in Hin as [-> | Hin]);
  try (by apply elem_of_nil in Hin).

(** X6. The delete route touches nothing without authority: a broadcast
    or a store removal occurs in a run only if the event was found, the
    submitted edit token equals the event's, and the stored actor
    snapshot parsed. *)
Theorem deleteEvent_needs_token
    (JSON_parse : string -> result json) (sendEmails : bool)
    (found : result (option event)) (eventID token : string)
    (t : list step) (s : step) :
  trace (deleteEvent JSON_parse sendEmails found eventID token) t ->
  s ∈ t ->
  is_removal s = true ∨ is_broadcast s = true ->
  ∃ e jsonUpdateObject,
    found = Ok (Some e) ∧ editToken e = token ∧
    parse_stored JSON_parse (activityPubActor e) = Ok jsonUpdateObject.
Proof.
  intros Htrace Hin Heffect. unfold deleteEvent in Htrace.
  destruct found as [[e|]|err].
  - destruct (String.eqb_spec (editToken e) token) as [Htoken|Htoken].
    + destruct (parse_stored JSON_parse (activityPubActor e)) as [jsonUpdateObject|err] eqn:Hparse.
      * eauto.
      * invert_trace; scan_members Hin; by destruct Heffect.
    + invert_trace; scan_members Hin; by destruct Heffect.
  - invert_trace; scan_members Hin; by destruct Heffect.
  - invert_trace; scan_members Hin; by destruct Heffect.
Qed.

Lemma deleteEvent_needs_token_witness :
  ∃ e jsonUpdateObject,
    Ok (Some Sample.stored_event) = Ok (Some e) ∧ editToken e = "s3cr3t" ∧
    parse_stored Sample.JSON_parse (activityPubActor e) = Ok jsonUpdateObject.
Proof.
  apply (deleteEvent_needs_token Sample.JSON_parse false (Ok (Some Sample.stored_event))
           "Ab3dEfGh1jKlMn0pQrStU" "s3cr3t"
           [SBroadcastDelete Sample.actor_doc (followers Sample.stored_event)
              "Ab3dEfGh1jKlMn0pQrStU";
            SCallback [Delivered];
            SEventDeleteOne "Ab3dEfGh1jKlMn0pQrStU"]
           (SEventDeleteOne "Ab3dEfGh1jKlMn0pQrStU")).
  - exact (deleteEvent_removes Sample.JSON_parse false Sample.stored_event
             "Ab3dEfGh1jKlMn0pQrStU" Sample.actor_doc [Delivered] eq_refl).
  - by do 2 right; left.
  - by left.
Defined.

(** X7. An event without a stored actor snapshot, or with one that is no
    JSON, cannot be deleted through the route: with the right token the
    answer is the error text of [JSON.parse], and no run holds a
    broadcast or a removal. *)
Theorem deleteEvent_without_snapshot
    (JSON_parse : string -> result json) (sendEmails : bool)
    (e : event) (eventID err : string) :
  parse_stored JSON_parse (activityPubActor e) = Throw err ->
  (∀ t s,
     trace (deleteEvent JSON_parse sendEmails (Ok (Some e)) eventID (editToken e)) t ->
     s ∈ t -> is_removal s = false ∧ is_broadcast s = false) ∧
  trace (deleteEvent JSON_parse sendEmails (Ok (Some e)) eventID (editToken e))
    [SSend ("Sorry! Something went wrong: " +:+ err);
     SLog "deleteEvent" "error"
       ("Attempt to delete event " +:+ eventID +:+ " failed with error: " +:+ err)].
Proof.
  intros Hparse. unfold deleteEvent. rewrite String.eqb_refl, Hparse. split.
  - intros t s Htrace Hin. invert_trace; scan_members Hin; done.
  - unfold deleteEventFailed. apply trace_send, trace_log, trace_nil.
Qed.

Lemma deleteEvent_without_snapshot_witness :
  trace (deleteEvent Sample.JSON_parse false (Ok (Some Sample.plain_event))
           "Zz3dEfGh1jKlMn0pQrStU" "t0k3n")
    [SSend "Sorry! Something went wrong: SyntaxError: Unexpected token u in JSON at position 0";
     SLog "deleteEvent" "error"
       "Attempt to delete event Zz3dEfGh1jKlMn0pQrStU failed with error: SyntaxError: Unexpected token u in JSON at position 0"].
Proof.
  exact (proj2 (deleteEvent_without_snapshot Sample.JSON_parse false Sample.plain_event
                  "Zz3dEfGh1jKlMn0pQrStU"
                  "SyntaxError: Unexpected token u in JSON at position 0" eq_refl)).
Defined.

(** X8. In the scheduled job an event that lacks one of the two
    ActivityPub fields is removed at once: no run holds a broadcast, and
    the removal is the first store step. *)
Theorem deleteOldEvent_without_activitypub
    (JSON_parse : string -> result json) (e : event) :
  (present (activityPubActor e) && present (activityPubEvent e))%bool = false ->
  (∀ t s, trace (deleteOldEvent JSON_parse e) t -> s ∈ t -> is_broadcast s = false) ∧
  ∃ t0, trace (deleteOldEvent JSON_parse e) (t0 ++ [SEventRemove (_id e)]).
Proof.
  intros Hplain. unfold deleteOldEvent. rewrite Hplain. split.
  - intros t s Htrace Hin. invert_trace; scan_members Hin; done.
  - assert (Hrun : trace (deleteEventFromDB (_id e)) [SEventRemove (_id e)]).
    { apply (trace_remove _ _ (Ok tt)), trace_nil. }
    destruct (present (image e)).
    + eexists [_]. by apply trace_unlink.
    + by exists [].
Qed.

Lemma deleteOldEvent_without_activitypub_witness :
  ∃ t0, trace (deleteOldEvent Sample.JSON_parse Sample.plain_event)
          (t0 ++ [SEventRemove "6543210fedcba98765432110"]).
Proof.
  exact (proj2 (deleteOldEvent_without_activitypub Sample.JSON_parse Sample.plain_event
                  eq_refl)).
Defined.

(** X9. In the scheduled job an event whose two ActivityPub fields are
    stored but one of them is no JSON stays in the store: the exception
    of [JSON.parse] leaves the loop body and no run holds a broadcast or
    a removal. *)
Theorem deleteOldEvent_keeps_unparseable
    (JSON_parse : string -> result json) (e : event) (t : list step) (s : step) :
  present (activityPubActor e) = true ->
  present (activityPubEvent e) = true ->
  (∃ err, parse_stored JSON_parse (activityPubActor e) = Throw err) ∨
  (∃ err, parse_stored JSON_parse (activityPubEvent e) = Throw err) ->
  trace (deleteOldEvent JSON_parse e) t ->
  s ∈ t ->
  is_removal s = false ∧ is_broadcast s = false.
Proof.
  intros Hactor Hevent Hparse Htrace Hin.
  unfold deleteOldEvent in Htrace. rewrite Hactor, Hevent in Htrace. cbn [andb] in Htrace.
  destruct Hparse as [[err Herr] | [err Herr]].
  - rewrite Herr in Htrace. invert_trace; scan_members Hin; done.
  - rewrite Herr in Htrace.
    destruct (parse_stored JSON_parse (activityPubActor e));
      invert_trace; scan_members Hin; done.
Qed.

Lemma deleteOldEvent_keeps_unparseable_witness :
  is_removal (SRaise "SyntaxError: Unexpected token in JSON") = false ∧
  is_broadcast (SRaise "SyntaxError: Unexpected token in JSON") = false.
Proof.
  apply (deleteOldEvent_keeps_unparseable Sample.JSON_parse Fixture.broken_event
           [SRaise "SyntaxError: Unexpected token in JSON"]
           (SRaise "SyntaxError: Unexpected token in JSON") eq_refl eq_refl).
  - left. by eexists.
  - apply trace_raise.
  - by left.
Defined.

(** ** The event page: when a JSON body goes out *)

(** X10. The event page sends a JSON body only when the event was found,
    its page data was computed, the request negotiated ActivityPub and
    the stored snapshot (or the text of the empty object in its place)
    parsed; the body is that parse and the only header set is the
    ActivityPub content type. *)
Theorem getEvent_sends_only_negotiated
    (media_types : request -> list string)
    (JSON_parse : string -> result json)
    (Locals : Type) (event_locals : event -> request -> result Locals)
    (found : result (option event)) (req : request)
    (headers : list (string * string)) (body : json) :
  getEvent media_types JSON_parse Locals event_locals found req = Sent headers body ->
  ∃ e locals,
    found = Ok (Some e) ∧
    event_locals e req = Ok locals ∧
    acceptsActivityPub media_types req = true ∧
    JSON_parse (or_string (activityPubActor e) "{}") = Ok body ∧
    headers = [("Content-Type", activityPubContentType)].
Proof.
  unfold getEvent, notFound.
  destruct found as [[e|]|err]; [|done..].
  destruct (event_locals e req) as [locals|err] eqn:Hlocals; [|done].
  destruct (acceptsActivityPub media_types req) eqn:Haccepts; [|done].
  destruct (JSON_parse (or_string (activityPubActor e) "{}")) as [actor|err] eqn:Hparse;
    [|done].
  intros [= <- <-]. by exists e, locals.
Qed.

Lemma getEvent_sends_only_negotiated_witness :
  ∃ e locals,
    Ok (Some Sample.stored_event) = Ok (Some e) ∧
    (fun (_ : event) (_ : request) => Ok tt) e (Sample.get ["application/activity+json"])
      = Ok locals ∧
    acceptsActivityPub Sample.media_types (Sample.get ["application/activity+json"]) = true ∧
    Sample.JSON_parse (or_string (activityPubActor e) "{}") = Ok Sample.actor_doc ∧
    [("Content-Type", activityPubContentType)] = [("Content-Type", activityPubContentType)].
Proof.
  apply (getEvent_sends_only_negotiated Sample.media_types Sample.JSON_parse unit
           (fun _ _ => Ok tt) (Ok (Some Sample.stored_event))
           (Sample.get ["application/activity+json"])).
  by vm_compute.
Defined.

(** ** The first forty words *)

Section WordFacts.

Import Js.

Lemma split_pieces_free c s : Forall (fun piece => occurs c piece = false) (split c s).
Proof.
  induction s as [|a s IH]; [by repeat constructor|].
  cbn [split]. destruct (Ascii.eqb a c) eqn:Hac; [by constructor|].
  destruct (split c s) as [|piece rest].
  - constructor; [|done]. cbn [occurs]. by rewrite Hac.
  - apply Forall_cons in IH as [Hpiece Hrest].
    constructor; [|done]. cbn [occurs]. by rewrite Hac.
Qed.

Lemma split_nonempty c s : split c s ≠ [].
Proof.
  destruct s as [|a s]; [done|]. cbn [split].
  destruct (Ascii.eqb a c); [done|]. by destruct (split c s).
Qed.

Lemma join_cons_cons sep x y l :
  join sep (x :: y :: l) = x +:+ sep +:+ join sep (y :: l).
Proof. reflexivity. Qed.

(** Joining the pieces of a split gives the text back. *)
Lemma join_split c s : join (String c "") (split c s) = s.
Proof.
  induction s as [|a s IH]; [done|].
  cbn [split]. destruct (Ascii.eqb_spec a c) as [->|Hac].
  - pose proof (split_nonempty c s) as Hne.
    destruct (split c s) as [|piece rest]; [done|].
    rewrite join_cons_cons. by rewrite IH.
  - destruct (split c s) as [|piece rest] eqn:Hsplit; [by destruct (split_nonempty c s)|].
    rewrite <- IH. by destruct rest.
Qed.

(** The join of the first pieces is a beginning of the text. *)
Lemma join_take_split c n s :
  ∃ rest, s = join (String c "") (take n (split c s)) +:+ rest.
Proof.
  revert n. induction s as [|a s IH]; intros n.
  - exists "". by destruct n as [|[|n]].
  - destruct n as [|n]; [by eexists|].
    cbn [split]. destruct (Ascii.eqb_spec a c) as [->|Hac].
    + cbn [take]. destruct n as [|n].
      * rewrite take_0. by eexists.
      * destruct (IH (S n)) as [rest Hrest].
        pose proof (split_nonempty c s) as Hne.
        destruct (split c s) as [|piece pieces]; [done|].
        cbn [take] in *. rewrite join_cons_cons.
        exists rest. rewrite Hrest at 1. reflexivity.
    + destruct (IH (S n)) as [rest Hrest].
      pose proof (split_nonempty c s) as Hne.
      destruct (split c s) as [|piece pieces]; [done|].
      cbn [take] in *. exists rest. rewrite Hrest at 1.
      by destruct (take n pieces).
Qed.

End WordFacts.

(** X11. The description of the page metadata is cut after forty words:
    the text before [trim] is a beginning of the plain text, it splits
    into at most forty space-separated pieces, and a text of at most forty
    pieces passes unchanged. *)
Theorem description_preview_cut (plain : string) :
  (∃ rest, plain = description_preview plain +:+ rest) ∧
  (List.length (Js.split Js.space (description_preview plain)) <= 40)%nat ∧
  ((List.length (Js.split Js.space plain) <= 40)%nat -> description_preview plain = plain).
Proof.
  unfold description_preview, first_words. split; [|split].
  - apply (join_take_split Js.space 40 plain).
  - pose proof (split_nonempty Js.space plain) as Hne.
    pose proof (split_pieces_free Js.space plain) as Hfree.
    destruct (Js.split Js.space plain) as [|piece pieces]; [done|].
    cbn [take]. rewrite split_join.
    + change (S (List.length (take 39 pieces)) <= 40)%nat.
      rewrite length_take. lia.
    + apply Forall_cons in Hfree as [Hpiece Hpieces].
      constructor; [done|]. by apply Forall_take.
  - intros Hshort. rewrite take_ge by done. apply join_split.
Qed.

Lemma description_preview_cut_witness :
  description_preview "A picnic in the park" = "A picnic in the park".
Proof.
  apply (proj2 (proj2 (description_preview_cut "A picnic in the park"))).
  vm_compute. lia.
Defined.

(** ** The attendee list of the event page *)

Module RsvpFacts.

Import Rsvp.

Lemma filter_from_elem {A : Type} (p : A -> nat -> bool) pos (arr : list A) x :
  x ∈ filter_from p pos arr -> ∃ i, arr !! i = Some x ∧ p x (pos + i) = true.
Proof.
  revert pos. induction arr as [|obj rest IH]; intros pos Hin.
  - by apply elem_of_nil in Hin.
  - cbn [filter_from] in Hin. destruct (p obj pos) eqn:Hp.
    + apply elem_of_cons in Hin as [-> | Hin].
      * exists 0%nat. by rewrite Nat.add_0_r.
      * destruct (IH _ Hin) as (i & Hi & Hpi). exists (S i).
        by rewrite Nat.add_succ_r.
    + destruct (IH _ Hin) as (i & Hi & Hpi). exists (S i).
      by rewrite Nat.add_succ_r.
Qed.

(** Keeping only first occurrences leaves distinct keys. *)
Lemma filter_from_first_NoDup {A : Type} (f : A -> key) (q : A -> bool)
    (keys : list key) pos (arr : list A) :
  NoDup (map f (filter_from
                  (fun obj at_ => (q obj && bool_decide (indexOf (f obj) keys = Some at_))%bool)
                  pos arr)).
Proof.
  revert pos. induction arr as [|obj rest IH]; intros pos; [constructor|].
  cbn [filter_from].
  destruct (q obj && bool_decide (indexOf (f obj) keys = Some pos))%bool eqn:Hkeep; [|apply IH].
  cbn [map]. constructor; [|apply IH].
  intros Hin. apply list_elem_of_fmap in Hin as (later & Hkey & Hlater).
  apply filter_from_elem in Hlater as (i & _ & Hp).
  apply andb_true_iff in Hkeep as [_ Hfirst]. apply andb_true_iff in Hp as [_ Hp].
  apply bool_decide_eq_true in Hfirst. apply bool_decide_eq_true in Hp.
  rewrite <- Hkey, Hfirst in Hp. injection Hp. lia.
Qed.

Lemma indexOf_NoDup (keys : list key) i k :
  NoDup keys -> keys !! i = Some k -> indexOf k keys = Some i.
Proof.
  intros Hdistinct. revert i. induction Hdistinct as [|k' rest Hnotin _ IH]; intros i Hi.
  - done.
  - cbn [indexOf]. destruct i as [|i].
    + injection Hi as ->. by rewrite decide_True.
    + cbn in Hi. rewrite decide_False.
      * by rewrite (IH i Hi).
      * intros ->. apply Hnotin. by eapply list_elem_of_lookup_2.
Qed.

Lemma filter_from_filter {A : Type} (p : A -> nat -> bool) (q : A -> bool) pos (arr : list A) :
  (∀ i x, arr !! i = Some x -> p x (pos + i) = q x) ->
  filter_from p pos arr = List.filter q arr.
Proof.
  revert pos. induction arr as [|obj rest IH]; intros pos Hagree; [done|].
  cbn [filter_from List.filter].
  rewrite <- (Hagree 0%nat obj eq_refl), Nat.add_0_r.
  rewrite (IH (S pos)); [done|].
  intros i x Hi. rewrite Nat.add_succ_l, <- Nat.add_succ_r. by apply (Hagree (S i)).
Qed.

Lemma total_app (l1 l2 : list Z) : total (l1 ++ l2) = (total l1 + total l2)%Z.
Proof. induction l1 as [|n l1 IH]; cbn [total app]; lia. Qed.

Lemma total_Permutation (l1 l2 : list Z) : l1 ≡ₚ l2 -> total l1 = total l2.
Proof. induction 1; cbn [total]; lia. Qed.

Lemma total_abs_nonneg (l : list Z) : (0 <= total (map Z.abs l))%Z.
Proof. induction l as [|n l IH]; cbn [map total]; lia. Qed.

Lemma abs_total (l : list Z) : (Z.abs (total l) <= total (map Z.abs l))%Z.
Proof. induction l as [|n l IH]; cbn [map total]; lia. Qed.

Lemma total_abs_take (k : nat) (l : list Z) :
  (total (map Z.abs (take k l)) <= total (map Z.abs l))%Z.
Proof.
  revert k. induction l as [|n l IH]; intros [|k]; cbn [take map total]; try lia.
  - pose proof (total_abs_nonneg l). lia.
  - specialize (IH k). lia.
Qed.

Lemma total_abs_filter {A : Type} (f : A -> Z) (p : A -> bool) (l : list A) :
  (total (map Z.abs (map f (List.filter p l))) <= total (map Z.abs (map f l)))%Z.
Proof.
  induction l as [|x l IH]; cbn [List.filter map total]; [lia|].
  destruct (p x); cbn [map total]; lia.
Qed.

(** A list whose sizes add up to no more than 2^53 is summed exactly. *)
Lemma exactly_summed_bound (l : list Z) :
  (total (map Z.abs l) <= 2 ^ 53)%Z -> exactly_summed l.
Proof.
  intros Hbound k. pose proof (abs_total (take k l)). pose proof (total_abs_take k l). lia.
Qed.

Lemma headcount_total (stored : list attendee) :
  headcount stored = total (map contribution stored).
Proof.
  unfold headcount.
  assert (Hfold : ∀ z, foldl (fun acc a => (acc + (if attending a then party a else 0))%Z) z stored
                       = (z + total (map contribution stored))%Z).
  { induction stored as [|a rest IH]; intros z; cbn [foldl map total]; [lia|].
    rewrite IH. unfold contribution. lia. }
  rewrite Hfold. lia.
Qed.

Lemma numberOfAttendees_total (l : list listed) :
  numberOfAttendees (Some l) = total (map (fun a => contribution (source a)) l).
Proof.
  unfold numberOfAttendees.
  assert (Hfold : ∀ z,
    foldl (fun acc a => if attending (source a) then (acc + party (source a))%Z else acc) z l
    = (z + total (map (fun a => contribution (source a)) l))%Z).
  { induction l as [|a rest IH]; intros z; cbn [foldl map total]; [lia|].
    rewrite IH. unfold contribution. destruct (attending (source a)); lia. }
  rewrite Hfold. lia.
Qed.

Lemma total_filter_attending (l : list listed) :
  total (map (fun a => contribution (source a))
           (List.filter (fun a => attending (source a)) l))
  = total (map (fun a => contribution (source a)) l).
Proof.
  induction l as [|a rest IH]; [done|]. cbn [List.filter].
  destruct (attending (source a)) eqn:Ha; cbn [map total]; rewrite IH; [done|].
  unfold contribution. rewrite Ha. lia.
Qed.

(** The stored entries with their places. *)
Lemma imap_places_from {A : Type} (l : list A) (from : nat) :
  (imap (fun place el => (from + place, el)) l).*2 = l.
Proof.
  revert from. induction l as [|x l IH]; intros from; [done|].
  cbn [imap fmap list_fmap]. f_equal.
  rewrite <- (IH (S from)) at 2. f_equal. apply imap_ext. intros i y _. cbn. f_equal. lia.
Qed.

Lemma string_ids_cons (a : attendee) (rest : list attendee) :
  string_ids (a :: rest) =
  match id a with
  | Some s => if Js.nonempty s then s :: string_ids rest else string_ids rest
  | None => string_ids rest
  end.
Proof.
  unfold string_ids. cbn [omap list_omap].
  destruct (id a) as [s|]; [|done]. by destruct (Js.nonempty s).
Qed.

Lemma keys_from_elem (stored : list attendee) (from : nat) k :
  k ∈ imap (fun place el => key_at (from + place) el) stored ->
  (∃ s, k = KString s ∧ s ∈ string_ids stored) ∨ (∃ i, k = KObject (from + i)).
Proof.
  revert from k. induction stored as [|a rest IH]; intros from k Hin.
  - by apply elem_of_nil in Hin.
  - cbn [imap] in Hin. rewrite string_ids_cons.
    apply elem_of_cons in Hin as [-> | Hin].
    + unfold key_at. rewrite Nat.add_0_r.
      destruct (id a) as [s|]; [|right; by exists 0%nat; rewrite Nat.add_0_r].
      destruct (Js.nonempty s); [|right; by exists 0%nat; rewrite Nat.add_0_r].
      left. exists s. split; [done|]. by left.
    + rewrite (imap_ext _ (fun place el => key_at (S from + place) el)) in Hin
        by (intros i y _; cbn; f_equal; lia).
      destruct (IH _ _ Hin) as [(s & -> & Hs) | (i & ->)].
      * left. exists s. split; [done|].
        destruct (id a) as [s'|]; [|done]. destruct (Js.nonempty s'); [by right|done].
      * right. exists (S i). f_equal. lia.
Qed.

Lemma keys_from_NoDup (stored : list attendee) (from : nat) :
  NoDup (string_ids stored) ->
  NoDup (imap (fun place el => key_at (from + place) el) stored).
Proof.
  revert from. induction stored as [|a rest IH]; intros from Hids; [constructor|].
  cbn [imap]. rewrite string_ids_cons in Hids.
  rewrite (imap_ext _ (fun place el => key_at (S from + place) el))
    by (intros i y _; cbn; f_equal; lia).
  assert (Hrest : NoDup (string_ids rest)).
  { destruct (id a) as [s|]; [|done]. destruct (Js.nonempty s); [|done].
    by apply NoDup_cons in Hids as [_ ?]. }
  constructor; [|by apply IH].
  intros Hin. apply keys_from_elem in Hin as [(s & Hkey & Hs) | (i & Hkey)].
  - unfold key_at in Hkey.
    destruct (id a) as [s'|]; [|done]. destruct (Js.nonempty s'); [|done].
    injection Hkey as ->. by apply NoDup_cons in Hids as [? _].
  - unfold key_at in Hkey.
    destruct (id a) as [s'|]; [destruct (Js.nonempty s'); [done|]|];
      injection Hkey; lia.
Qed.

Section PageFacts.

Variable sort : list (nat * attendee) -> list (nat * attendee).
Hypothesis sort_keeps : ∀ l, sort l ≡ₚ l.

Let placed (stored : list attendee) := imap (fun place el => (place, el)) stored.
Let arr (stored : list attendee) := map adjust (sort (placed stored)).

Lemma arr_sources (stored : list attendee) x :
  x ∈ arr stored -> source x ∈ stored.
Proof.
  unfold arr. intros Hin. apply list_elem_of_fmap in Hin as (p & -> & Hp).
  rewrite sort_keeps in Hp.
  rewrite <- (imap_places_from stored 0). apply list_elem_of_fmap. by exists p.
Qed.

Lemma arr_keys_NoDup (stored : list attendee) :
  NoDup (string_ids stored) -> NoDup (map listed_id (arr stored)).
Proof.
  intros Hids. unfold arr. rewrite map_map.
  rewrite (List.map_ext _ (fun p => key_at p.1 p.2)) by done.
  assert (Hperm : map (fun p : nat * attendee => key_at p.1 p.2) (sort (placed stored))
                  ≡ₚ map (fun p : nat * attendee => key_at p.1 p.2) (placed stored)).
  { apply fmap_Permutation, sort_keeps. }
  rewrite Hperm. unfold placed.
  change (NoDup ((fun p : nat * attendee => key_at p.1 p.2)
                   <$> imap (fun place el => (place, el)) stored)).
  rewrite fmap_imap. apply (keys_from_NoDup stored 0 Hids).
Qed.

Lemma arr_total_of (f : attendee -> Z) (stored : list attendee) :
  total (map (fun a => f (source a)) (arr stored)) = total (map f stored).
Proof.
  unfold arr. rewrite map_map.
  rewrite (List.map_ext _ (fun p : nat * attendee => f p.2)) by done.
  rewrite (total_Permutation _ (map (fun p : nat * attendee => f p.2) (placed stored)))
    by apply fmap_Permutation, sort_keeps.
  f_equal.
  rewrite <- (imap_places_from stored 0) at 2.
  unfold placed. by rewrite <- list_fmap_compose.
Qed.

Lemma arr_total (stored : list attendee) :
  total (map (fun a => contribution (source a)) (arr stored)) = headcount stored.
Proof. by rewrite headcount_total, (arr_total_of contribution). Qed.

(** The sizes of the listed entries add up to no more than those of the
    stored ones. *)
Lemma arr_magnitude (stored : list attendee) :
  (total (map Z.abs (map (fun a => contribution (source a))
                       (List.filter (fun a => attending (source a)) (arr stored))))
   <= magnitude stored)%Z.
Proof.
  etrans; [apply total_abs_filter|].
  rewrite map_map. unfold magnitude.
  by rewrite (arr_total_of (fun a => Z.abs (contribution a))).
Qed.

Lemma eventAttendees_attending stored :
  NoDup (string_ids stored) ->
  eventAttendees sort (Some stored)
  = Some (List.filter (fun a => attending (source a)) (arr stored)).
Proof.
  intros Hids. unfold eventAttendees. fold (placed stored). fold (arr stored).
  f_equal. apply filter_from_filter. intros i x Hi. unfold first_attending.
  rewrite bool_decide_eq_true_2; [by rewrite andb_true_r|].
  apply indexOf_NoDup; [by apply arr_keys_NoDup|].
  change (map listed_id (arr stored)) with (listed_id <$> arr stored).
  rewrite list_lookup_fmap. change (0 + i)%nat with i. by rewrite Hi.
Qed.

End PageFacts.

End RsvpFacts.

(** X12. The attendee list of the event page holds attending entries of
    the stored array only, and no two of them under the same id: of the
    entries that share an id, at most the first in sorted order is
    listed. *)
Theorem eventAttendees_attending_distinct
    (sort : list (nat * Rsvp.attendee) -> list (nat * Rsvp.attendee))
    (stored : list Rsvp.attendee) (shown : list Rsvp.listed) :
  (∀ l, sort l ≡ₚ l) ->
  Rsvp.eventAttendees sort (Some stored) = Some shown ->
  Forall (fun a => Rsvp.attending (Rsvp.source a) = true ∧ Rsvp.source a ∈ stored) shown ∧
  NoDup (map Rsvp.listed_id shown).
Proof.
  intros Hsort [= <-]. split.
  - apply Forall_forall. intros x Hin.
    apply RsvpFacts.filter_from_elem in Hin as (i & Hi & Hp).
    apply andb_true_iff in Hp as [Hattending _]. split; [done|].
    apply (RsvpFacts.arr_sources sort Hsort). by eapply list_elem_of_lookup_2.
  - apply (RsvpFacts.filter_from_first_NoDup Rsvp.listed_id
             (fun obj => Rsvp.attending (Rsvp.source obj))).
Qed.

Lemma eventAttendees_attending_distinct_witness :
  NoDup (map Rsvp.listed_id
           (default [] (Rsvp.eventAttendees RsvpFixture.sort (Some RsvpFixture.stored)))).
Proof.
  apply (eventAttendees_attending_distinct RsvpFixture.sort RsvpFixture.stored).
  - intros l. apply reverse_Permutation.
  - reflexivity.
Defined.

(** X13. When no two stored attendees share an id, and the maximum and
    the stored party sizes, each without its sign, add up to no more than
    2^53, the page and the RSVP routes count alike. Every partial sum of
    the routes, taken in stored order, and of the page, taken in sorted
    order, stays between -2^53 and 2^53, so no addition rounds;
    [numberOfAttendees] of the page is the sum the routes subtract from
    [maxAttendees]; and for a maximum other than zero [spotsRemaining] is
    [freeSpots], a difference in the same range. At a maximum of zero
    they part: the page leaves [spotsRemaining] undefined, the routes
    compute the negated sum. *)
Theorem page_count_is_headcount
    (sort : list (nat * Rsvp.attendee) -> list (nat * Rsvp.attendee))
    (stored : list Rsvp.attendee) (shown : list Rsvp.listed) (m : Z) :
  (∀ l, sort l ≡ₚ l) ->
  NoDup (string_ids stored) ->
  (Z.abs m + magnitude stored <= 2 ^ 53)%Z ->
  Rsvp.eventAttendees sort (Some stored) = Some shown ->
  exactly_summed (map contribution stored) ∧
  exactly_summed (map (fun a => contribution (Rsvp.source a)) shown) ∧
  Rsvp.numberOfAttendees (Some shown) = Rsvp.headcount stored ∧
  (m ≠ 0%Z ->
   Rsvp.spotsRemaining (Some m) (Rsvp.numberOfAttendees (Some shown))
   = Rsvp.freeSpots (Some m) stored ∧
   (Z.abs (m - Rsvp.headcount stored) <= 2 ^ 53)%Z) ∧
  Rsvp.spotsRemaining (Some 0%Z) (Rsvp.numberOfAttendees (Some shown)) = None ∧
  Rsvp.freeSpots (Some 0%Z) stored = Some (- Rsvp.headcount stored)%Z.
Proof.
  intros Hsort Hids Hsafe Hshown.
  rewrite (RsvpFacts.eventAttendees_attending sort Hsort stored Hids) in Hshown.
  injection Hshown as <-.
  assert (Hcount : Rsvp.numberOfAttendees
                     (Some (List.filter (fun a => Rsvp.attending (Rsvp.source a))
                              (map Rsvp.adjust
                                 (sort (imap (fun place el => (place, el)) stored)))))
                   = Rsvp.headcount stored).
  { rewrite RsvpFacts.numberOfAttendees_total, RsvpFacts.total_filter_attending.
    apply (RsvpFacts.arr_total sort Hsort). }
  assert (Hroutes : (Z.abs m + total (map Z.abs (map contribution stored)) <= 2 ^ 53)%Z).
  { unfold magnitude in Hsafe. by rewrite map_map. }
  split; [apply RsvpFacts.exactly_summed_bound; lia|].
  split.
  { apply RsvpFacts.exactly_summed_bound.
    etrans; [apply (RsvpFacts.arr_magnitude sort Hsort stored)|]. lia. }
  rewrite Hcount. split; [done|]. split; [|split].
  - intros Hm. unfold Rsvp.spotsRemaining, Rsvp.freeSpots.
    rewrite (proj2 (Z.eqb_neq m 0) Hm). split; [done|].
    rewrite RsvpFacts.headcount_total.
    pose proof (RsvpFacts.abs_total (map contribution stored)). lia.
  - reflexivity.
  - reflexivity.
Qed.

Lemma page_count_is_headcount_witness :
  Rsvp.numberOfAttendees (Rsvp.eventAttendees RsvpFixture.sort (Some RsvpFixture.stored))
  = 3%Z.
Proof.
  refine (proj1 (proj2 (proj2
            (page_count_is_headcount RsvpFixture.sort RsvpFixture.stored _ 3
               (fun l => reverse_Permutation l) _ _ eq_refl)))).
  - apply (bool_decide_unpack _). by vm_compute.
  - by vm_compute.
Defined.

(** ** The attend route and the maximum *)

Section AttendFacts.

Import Rsvp.

Lemma find_has_password password (l : list attendee) :
  existsb (has_password password) l = true ->
  ∃ a, List.find (has_password password) l = Some a.
Proof.
  induction l as [|a rest IH]; [done|]. cbn [existsb List.find].
  destruct (has_password password a); [eauto|]. exact IH.
Qed.




End AttendFacts.







(** ** Prefetching servers and the one-click unattend link *)

Section AgentFacts.

Import Js.

Lemma toLowerCase_append (s t : string) :
  toLowerCase (s +:+ t) = toLowerCase s +:+ toLowerCase t.
Proof.
  induction s as [|a s IH]; [done|].
  change (String (lower_ascii a) (toLowerCase (s +:+ t))
          = String (lower_ascii a) (toLowerCase s +:+ toLowerCase t)).
  by rewrite IH.
Qed.

Lemma starts_with_append (sub rest : string) : starts_with sub (sub +:+ rest) = true.
Proof.
  induction sub as [|a sub IH]; [by destruct rest|].
  change (starts_with (String a sub) (String a (sub +:+ rest)) = true).
  cbn [starts_with]. by rewrite Ascii.eqb_refl, IH.
Qed.

Lemma includes_append (before sub after : string) :
  includes (before +:+ sub +:+ after) sub = true.
Proof.
  induction before as [|a before IH].
  - change ("" +:+ sub +:+ after) with (sub +:+ after).
    destruct (sub +:+ after) eqn:Hs; cbn [includes]; rewrite <- Hs;
      by rewrite starts_with_append.
  - change (includes (String a (before +:+ sub +:+ after)) sub = true).
    cbn [includes]. rewrite IH. apply orb_true_r.
Qed.

End AgentFacts.

(** X16. A prefetch is no unattend. Whenever the user agent of the
    request holds the word mastodon or pleroma, in any mix of upper and
    lower case, the handler answers 200 and asks the store for nothing. *)
Theorem oneClickUnattend_ignores_prefetch
    (req : request) (eventID attendeeID before word after : string) :
  req_headers req !! "user-agent" = Some (before +:+ word +:+ after) ->
  Js.toLowerCase word = "mastodon" ∨ Js.toLowerCase word = "pleroma" ->
  oneClickUnattend req eventID attendeeID = Acknowledge 200.
Proof.
  intros Hagent Hword. unfold oneClickUnattend. rewrite Hagent.
  assert (Hnonempty : Js.nonempty (before +:+ word +:+ after) = true).
  { destruct before; [|done]. destruct word; [|done]. by destruct Hword. }
  rewrite Hnonempty, !toLowerCase_append. cbn [andb].
  destruct Hword as [-> | ->].
  - by rewrite includes_append.
  - by rewrite includes_append, orb_true_r.
Qed.

Lemma oneClickUnattend_ignores_prefetch_witness :
  oneClickUnattend
    (Sample.post {[ "user-agent" := "http.rb/5.1.1 (Mastodon/4.2.0; +https://social.example/)" ]})
    "Ab3dEfGh1jKlMn0pQrStU" "6543210fedcba9876543210f"
  = Acknowledge 200.
Proof.
  apply (oneClickUnattend_ignores_prefetch _ _ _
           "http.rb/5.1.1 (" "Mastodon" "/4.2.0; +https://social.example/)").
  - reflexivity.
  - by left.
Defined.

(** ** Provisioning *)

(** X17. Provisioning takes no spot. The [freeSpots] the provision route
    returns are those of the event before the new entry was pushed; and
    when no earlier entry carries the new removal password, the entry
    that password finds is the new one, which is not attending. *)
Theorem provision_takes_no_spot
    (removalPassword : string) (entry : Rsvp.attendee) (event : Rsvp.rsvp_event) :
  pushed_as removalPassword entry ->
  provisionFreeSpots entry event
  = Rsvp.freeSpots (Rsvp.maxAttendees event) (Rsvp.attendees event) ∧
  Rsvp.attending entry = false ∧
  (existsb (Rsvp.has_password removalPassword) (Rsvp.attendees event) = false ->
   List.find (Rsvp.has_password removalPassword) (Rsvp.attendees (provisioned entry event))
   = Some entry).
Proof.
  intros [Hstatus Hpassword].
  assert (Hout : Rsvp.attending entry = false).
  { unfold Rsvp.attending. by rewrite Hstatus. }
  split; [|split; [done|]].
  - unfold provisionFreeSpots, provisioned, Rsvp.freeSpots. cbn [Rsvp.attendees].
    destruct (Rsvp.maxAttendees event) as [m|]; [|done]. f_equal. f_equal.
    rewrite !RsvpFacts.headcount_total, map_app, RsvpFacts.total_app.
    cbn [map total]. unfold contribution. rewrite Hout. lia.
  - intros Hfresh. unfold provisioned. cbn [Rsvp.attendees].
    induction (Rsvp.attendees event) as [|a rest IH].
    + cbn [app List.find]. unfold Rsvp.has_password. rewrite Hpassword.
      cbn [newAttendee Rsvp.removalPassword]. by rewrite String.eqb_refl.
    + cbn [existsb] in Hfresh. apply orb_false_iff in Hfresh as [Ha Hrest].
      cbn [app List.find]. rewrite Ha. by apply IH.
Qed.

Lemma provision_takes_no_spot_witness :
  provisionFreeSpots (newAttendee "melon-ice") RsvpFixture.full_event = Some 0%Z.
Proof.
  apply (proj1 (provision_takes_no_spot "melon-ice" (newAttendee "melon-ice")
                  RsvpFixture.full_event (conj eq_refl eq_refl))).
Defined.

(** ** Editing mode *)

(** X18. Editing is switched on only by the token itself. On the event
    page [editingEnabled] is true exactly when the query parameter [e] is
    a text equal to the edit token and not empty; the group page decides
    the same way; and [jsonData.editToken] holds the token only for a
    request whose [e] already is that token. *)
Theorem editingEnabled_iff_token (query : gmap string query_value) (token : string) :
  (event_editingEnabled query token = true ↔
   query !! "e" = Some (QString token) ∧ token ≠ "") ∧
  group_editingEnabled query token = event_editingEnabled query token ∧
  (∀ disclosed,
     jsonData_editToken (event_editingEnabled query token) token = Some disclosed ->
     query !! "e" = Some (QString disclosed)).
Proof.
  assert (Hiff : event_editingEnabled query token = true ↔
                 query !! "e" = Some (QString token) ∧ token ≠ "").
  { unfold event_editingEnabled, has_keys. split.
    - destruct (bool_decide (query = ∅)); [done|]. cbn [negb].
      destruct (query !! "e") as [[s|]|]; cbn [query_truthy query_is negb]; [|done..].
      destruct (Js.nonempty s) eqn:Hs; [|done]. cbn [negb].
      destruct (String.eqb_spec s token) as [<-|]; [|done].
      intros _. split; [done|]. by intros ->.
    - intros [He Htoken].
      rewrite bool_decide_eq_false_2.
      + rewrite He. cbn [negb query_truthy query_is].
        destruct token; [done|]. cbn [Js.nonempty negb]. by rewrite String.eqb_refl.
      + intros ->. by rewrite lookup_empty in He. }
  split; [done|]. split.
  - unfold group_editingEnabled, event_editingEnabled.
    destruct (has_keys query); [|done].
    destruct (negb (query_truthy (query !! "e"))); [done|].
    by destruct (query_is (query !! "e") token).
  - intros disclosed. unfold jsonData_editToken.
    destruct (event_editingEnabled query token) eqn:Henabled; [|done].
    intros [= <-]. by apply Hiff.
Qed.

(** ** Unattending *)

Section UnattendFacts.

Lemma pull_password_gone password (l : list Rsvp.attendee) :
  existsb (Rsvp.has_password password) (pull_password password l) = false.
Proof.
  unfold pull_password. induction l as [|a rest IH]; [done|]. cbn [List.filter].
  destruct (Rsvp.has_password password a) eqn:Ha; cbn [negb]; [done|].
  cbn [existsb]. by rewrite Ha, IH.
Qed.

End UnattendFacts.

(** X19. Unattending with a removal password that is not blank asks the
    store to pull the entries with that password; afterwards no entry
    carries it, the entries with other passwords are all still there, and
    an attend request with the same password is answered 404. A blank
    password is refused with 500. *)
Theorem unattendEvent_then_attend
    (removalPassword : string) (event : Rsvp.rsvp_event) (body : Rsvp.attend_body) :
  removalPassword ≠ "" ->
  Rsvp.body_removalPassword body = Some removalPassword ->
  unattendEvent (Some removalPassword) = PullPassword removalPassword ∧
  unattendEvent None = Refuse 500 ∧
  unattendEvent (Some "") = Refuse 500 ∧
  existsb (Rsvp.has_password removalPassword)
    (pull_password removalPassword (Rsvp.attendees event)) = false ∧
  (∀ a, a ∈ Rsvp.attendees event -> Rsvp.has_password removalPassword a = false ->
        a ∈ pull_password removalPassword (Rsvp.attendees event)) ∧
  Rsvp.attendEvent
    (Ok (Some {| Rsvp.maxAttendees := Rsvp.maxAttendees event;
                 Rsvp.attendees := pull_password removalPassword (Rsvp.attendees event) |}))
    body
  = Rsvp.Status 404.
Proof.
  intros Hne Hbody. repeat split.
  - unfold unattendEvent. by destruct removalPassword.
  - apply pull_password_gone.
  - intros a Hin Hother. unfold pull_password.
    apply list_elem_of_In, filter_In. split; [by apply list_elem_of_In|]. by rewrite Hother.
  - unfold Rsvp.attendEvent. rewrite Hbody. cbn [present Js.template Rsvp.attendees].
    destruct removalPassword; [done|]. cbn [Js.nonempty negb].
    by rewrite pull_password_gone.
Qed.

Lemma unattendEvent_then_attend_witness :
  Rsvp.attendEvent
    (Ok (Some {| Rsvp.maxAttendees := Some 3%Z;
                 Rsvp.attendees := pull_password "apple-pie" RsvpFixture.stored |}))
    (RsvpFixture.form "apple-pie" 2)
  = Rsvp.Status 404.
Proof.
  apply (unattendEvent_then_attend "apple-pie" RsvpFixture.full_event
           (RsvpFixture.form "apple-pie" 2) ltac:(discriminate) eq_refl).
Defined.
